(** * picture-file-extension-fix: signature detection, path policy and
      the batch pipeline.

    A shallow embedding of [src/utils/fileSignatures.ts] and of the
    [startProcessing] loop of [src/App.tsx], followed by the properties
    established about them.

    Conventions of the embedding:
    - a JavaScript string is a [string]; its characters are the
      code units, and case conversion acts on the ASCII letters;
    - a [Uint8Array] / [ArrayBuffer] is a [list byte];
    - a [File] carries its [name], its [webkitRelativePath], its full
      byte content and whether the [FileReader] manages to read it;
      a browser gives [name] as the last segment of
      [webkitRelativePath], and the statements about a path take the
      file name to be that segment;
    - the React state touched by [startProcessing] is an explicit record
      threaded through the loop. *)

From Stdlib Require Import List ZArith NArith Lia Bool.
From Stdlib Require Import Strings.Ascii Strings.String Strings.Byte.
Import ListNotations.

Open Scope string_scope.
Open Scope list_scope.

(** ** JavaScript string and number primitives used by the sources *)

Module JS.

(** [s.split(sep)] for a one-character separator: never empty,
    [''.split('.')] is [['']]. *)
Fixpoint split (sep : ascii) (s : string) : list string :=
  match s with
  | EmptyString => [EmptyString]
  | String c s' =>
      if Ascii.eqb c sep then EmptyString :: split sep s'
      else match split sep s' with
           | h :: t => String c h :: t
           | [] => [String c EmptyString]
           end
  end.

(** [parts.join(sep)]. *)
Definition join (sep : string) (parts : list string) : string :=
  String.concat sep parts.

(** [s.lastIndexOf(c)], [-1] when [c] does not occur. *)
Fixpoint lastIndexOf (c : ascii) (s : string) : Z :=
  match s with
  | EmptyString => (-1)%Z
  | String a s' =>
      let r := lastIndexOf c s' in
      if (0 <=? r)%Z then (r + 1)%Z
      else if Ascii.eqb a c then 0%Z else (-1)%Z
  end.

(** [s.substring(indexStart, indexEnd)]: both indices are clamped to
    [0 .. s.length] and swapped when out of order. *)
Definition substring (s : string) (indexStart indexEnd : Z) : string :=
  let len := Z.of_nat (String.length s) in
  let a := Z.max 0 (Z.min indexStart len) in
  let b := Z.max 0 (Z.min indexEnd len) in
  let lo := Z.min a b in
  let hi := Z.max a b in
  String.substring (Z.to_nat lo) (Z.to_nat (hi - lo)) s.

(** [a || b] on strings: the empty string is the only falsy one. *)
Definition orElse (a b : string) : string :=
  match a with
  | EmptyString => b
  | _ => a
  end.

(** [s.startsWith(p)]. *)
Definition startsWith (s p : string) : bool := String.prefix p s.

Definition lowerChar (c : ascii) : ascii :=
  let n := nat_of_ascii c in
  if (65 <=? n)%nat && (n <=? 90)%nat then ascii_of_nat (n + 32) else c.

Definition upperChar (c : ascii) : ascii :=
  let n := nat_of_ascii c in
  if (97 <=? n)%nat && (n <=? 122)%nat then ascii_of_nat (n - 32) else c.

Fixpoint mapString (f : ascii -> ascii) (s : string) : string :=
  match s with
  | EmptyString => EmptyString
  | String c s' => String (f c) (mapString f s')
  end.

(** [toLowerCase] and [toUpperCase], on the ASCII letters; the sources
    apply them to file-name extensions and to hexadecimal digits. *)
Definition toLowerCase : string -> string := mapString lowerChar.
Definition toUpperCase : string -> string := mapString upperChar.

(** One digit of [Number.prototype.toString(16)]: lower-case. *)
Definition hexDigit (d : N) : ascii :=
  match d with
  | 0%N => "0" | 1%N => "1" | 2%N => "2" | 3%N => "3"
  | 4%N => "4" | 5%N => "5" | 6%N => "6" | 7%N => "7"
  | 8%N => "8" | 9%N => "9" | 10%N => "a" | 11%N => "b"
  | 12%N => "c" | 13%N => "d" | 14%N => "e" | _ => "f"
  end%char.

Fixpoint hexDigits (fuel : nat) (n : N) (acc : string) : string :=
  match fuel with
  | O => acc
  | S k =>
      let acc' := String (hexDigit (n mod 16)) acc in
      if (n / 16 =? 0)%N then acc' else hexDigits k (n / 16)%N acc'
  end.

(** [n.toString(16)] for a non-negative integer: no leading zero, no
    padding; [0] prints as ["0"]. *)
Definition toString16 (n : N) : string :=
  hexDigits (S (N.size_nat n)) n EmptyString.

End JS.

(** ** src/utils/fileSignatures.ts *)

Inductive MimeType : Type := png | jpg | gif | webp | unknown.

Definition MimeType_eqb (a b : MimeType) : bool :=
  match a, b with
  | png, png | jpg, jpg | gif, gif | webp, webp | unknown, unknown => true
  | _, _ => false
  end.

(** The string a [MimeType] literal is in the source; it is also the
    extension written on a renamed file. *)
Definition typeString (t : MimeType) : string :=
  match t with
  | png => "png"
  | jpg => "jpg"
  | gif => "gif"
  | webp => "webp"
  | unknown => "unknown"
  end.

Record File : Type := mkFile {
  name : string;
  webkitRelativePath : string;
  content : list byte;
  (** [false] when reading the blob raises the reader's error event. *)
  readable : bool
}.

(** [file.slice(0, 12)]. *)
Definition blobSlice (file : File) : list byte := firstn 12 (content file).

(** [reader.readAsArrayBuffer(blob)]: the buffer, or [None] on error
    (then [e.target.result] is null). *)
Definition readAsArrayBuffer (file : File) (blob : list byte)
  : option (list byte) :=
  if readable file then Some blob else None.

(** [b.toString(16).toUpperCase()]. *)
Definition byteHex (b : byte) : string :=
  JS.toUpperCase (JS.toString16 (Byte.to_N b)).

(** The [for] loop building [header] over [arr]. *)
Definition headerOf (arr : list byte) : string :=
  fold_left (fun header b => header ++ byteHex b)%string arr EmptyString.

(** [Array.from(a).map(b => b.toString(16).toUpperCase()).join('')]. *)
Definition hexJoin (a : list byte) : string :=
  JS.join EmptyString (map byteHex a).

(** [reader.onloadend]: the classification of the bytes read. *)
Definition onloadend (result : option (list byte)) : MimeType :=
  match result with
  | None => unknown
  | Some buf =>
      let arr := firstn 4 buf in
      let header := headerOf arr in
      if JS.startsWith header "89504E47" then png
      else if JS.startsWith header "FFD8FF" then jpg
      else if JS.startsWith header "47494638" then gif
      else
        let fullArr := buf in
        if (12 <=? List.length fullArr)%nat then
          let riff := firstn 4 fullArr in
          let webp_ := firstn 4 (skipn 8 fullArr) in
          let riffHex := hexJoin riff in
          let webpHex := hexJoin webp_ in
          if String.eqb riffHex "52494646" && String.eqb webpHex "57454250"
          then webp
          else unknown
        else unknown
  end.

(** [detectMimeType]: on a read error the promise resolves to
    ['unknown'] (both from [onerror] and from [onloadend] with a null
    result). *)
Definition detectMimeType (file : File) : MimeType :=
  match readAsArrayBuffer file (blobSlice file) with
  | None => unknown
  | Some buf => onloadend (Some buf)
  end.

(** The detector as a function of the byte prefix that was read. *)
Definition detect (prefix : list byte) : MimeType := onloadend (Some prefix).

Definition getExtension (filename : string) : string :=
  let parts := JS.split "."%char filename in
  if (List.length parts =? 1)%nat then EmptyString
  else JS.orElse (JS.toLowerCase (last parts EmptyString)) EmptyString.

Definition shouldSkipFile (filename : string) : bool :=
  if JS.startsWith filename "." || JS.startsWith filename "__MACOSX"
  then true else false.

(** ** src/types.ts *)

Inductive ProcessState : Type :=
  IDLE | READING | PROCESSING | ZIPPING | COMPLETED | ERROR.

(** The [status] field: ['fixed' | 'unchanged' | 'skipped']. *)
Inductive Status : Type := FIXED | UNCHANGED | SKIPPED.

Record ProcessedFile : Type := mkProcessedFile {
  originalName : string;
  newName : string;
  originalPath : string;
  detectedType : MimeType;
  status : Status;
  blob : File
}.

Record ProcessingStats : Type := mkStats {
  total : nat;
  fixed : nat;
  processed : nat;
  startTime : Z
}.

(** ** src/App.tsx: [startProcessing] *)

(** [parts[idx] = v] on a JavaScript array: replaces in range, extends
    (with holes, which [join] prints as empty) out of range. *)
Fixpoint assignAt (idx : nat) (v : string) (parts : list string)
  : list string :=
  match idx, parts with
  | O, [] => [v]
  | O, _ :: t => v :: t
  | S k, [] => EmptyString :: assignAt k v []
  | S k, h :: t => h :: assignAt k v t
  end.

(** What the renaming logic of one loop iteration (lines 58-93) leaves
    in its local variables. *)
Record Decision : Type := mkDecision {
  d_newName : string;
  d_finalPath : string;
  d_status : Status;
  d_fixedCount : nat
}.

Definition decide (fileName relativePath : string) (realType : MimeType)
           (fixedCount : nat) : Decision :=
  let currentExt := getExtension fileName in
  if negb (MimeType_eqb realType unknown) then
    let isMatch := String.eqb currentExt (typeString realType) in
    let isJpgMatch :=
      (String.eqb currentExt "jpeg" && MimeType_eqb realType jpg)
      || (String.eqb currentExt "jpg" && MimeType_eqb realType jpg) in
    if negb isMatch && negb isJpgMatch then
      let nameWithoutExt :=
        JS.orElse (JS.substring fileName 0 (JS.lastIndexOf "."%char fileName))
                  fileName in
      let newName := (nameWithoutExt ++ "." ++ typeString realType)%string in
      let pathParts := JS.split "/"%char relativePath in
      let fileNameIdx := (List.length pathParts - 1)%nat in
      let pathParts := assignAt fileNameIdx newName pathParts in
      mkDecision newName (JS.join "/" pathParts) FIXED (S fixedCount)
    else mkDecision fileName relativePath UNCHANGED fixedCount
  else mkDecision fileName relativePath UNCHANGED fixedCount.

(** [file.webkitRelativePath || file.name]. *)
Definition relativePathOf (file : File) : string :=
  JS.orElse (webkitRelativePath file) (name file).

(** The state [startProcessing] works on: the React state it sets and
    its own locals.  [zip] is the archive input: the calls
    [zip.file(path, data)] in the order they were made. *)
Record Run : Type := mkRun {
  state : ProcessState;
  stats : ProcessingStats;
  currentFile : string;
  logs : list ProcessedFile;
  zipBlob : option (list byte);
  errorMsg : string;
  processedFiles : list ProcessedFile;
  zip : list (string * File);
  fixedCount : nat
}.

(** One iteration of the [for] loop, for index [i] and [files[i]]. *)
Definition iteration (i : nat) (file : File) (st : Run) : Run :=
  let relativePath := relativePathOf file in
  let realType := detectMimeType file in
  let d := decide (name file) relativePath realType (fixedCount st) in
  let logEntry :=
    mkProcessedFile (name file) (d_newName d) relativePath realType
                    (d_status d) file in
  mkRun (state st)
        (mkStats (total (stats st)) (d_fixedCount d) (i + 1)
                 (startTime (stats st)))
        relativePath
        (firstn 500 (logEntry :: logs st))
        (zipBlob st)
        (errorMsg st)
        (processedFiles st ++ [logEntry])
        (zip st ++ [(d_finalPath d, file)])
        (d_fixedCount d).

(** [for (let i = ...; i < files.length; i++)], entered at index [i]
    with [files] the elements still to visit. *)
Fixpoint loop (i : nat) (files : list File) (st : Run) : Run :=
  match files with
  | [] => st
  | file :: rest => loop (S i) rest (iteration i file st)
  end.

(** The state when the loop is entered; [now] is [Date.now()]. *)
Definition begin (now : Z) (files : list File) : Run :=
  mkRun PROCESSING (mkStats (List.length files) 0 0 now)
        EmptyString [] None EmptyString [] [] 0.

(** The state once [k] iterations of the run over [files] are done. *)
Definition stateAfter (now : Z) (files : list File) (k : nat) : Run :=
  loop 0 (firstn k files) (begin now files).

(** [startProcessing]; [generateAsync] is JSZip's archive assembly,
    [None] when it throws. *)
Definition startProcessing
           (now : Z) (generateAsync : list (string * File) -> option (list byte))
           (files : list File) : Run :=
  let st := loop 0 files (begin now files) in
  match generateAsync (zip st) with
  | Some content_ =>
      mkRun COMPLETED (stats st) (currentFile st) (logs st) (Some content_)
            (errorMsg st) (processedFiles st) (zip st) (fixedCount st)
  | None =>
      mkRun ERROR (stats st) (currentFile st) (logs st) (zipBlob st)
            "An error occurred while processing files. Please try again."
            (processedFiles st) (zip st) (fixedCount st)
  end.

(** ** The specification's vocabulary *)

(** [c] occurs in [s]. *)
Fixpoint contains (c : ascii) (s : string) : bool :=
  match s with
  | EmptyString => false
  | String a s' => Ascii.eqb a c || contains c s'
  end.

(** The path segments, the last one (the file name) and the directory
    segments before it. *)
Definition segments (path : string) : list string := JS.split "/"%char path.
Definition lastSegment (path : string) : string :=
  last (segments path) EmptyString.
Definition dirSegments (path : string) : list string :=
  removelast (segments path).

(** The portion of a segment before its last ['.'] and the portion
    after it; both are meant for a segment that has a ['.']. *)
Definition beforeLastDot (seg : string) : string :=
  String.substring 0 (Z.to_nat (JS.lastIndexOf "."%char seg)) seg.
Definition afterLastDot (seg : string) : string :=
  String.substring (S (Z.to_nat (JS.lastIndexOf "."%char seg)))
                   (String.length seg) seg.

(** The current extension in the specification's words: the lower-cased
    substring after the last ['.'] of the last path segment, empty when
    there is no ['.']. *)
Definition currentExtension (path : string) : string :=
  let seg := lastSegment path in
  if contains "."%char seg then JS.toLowerCase (afterLastDot seg)
  else EmptyString.

(** The name a renamed file keeps in front of its new extension, in the
    specification's words: the portion before the last ['.'], the whole
    segment when it has no ['.']. *)
Definition stemOf (seg : string) : string :=
  if contains "."%char seg then beforeLastDot seg else seg.

(** What [nameWithoutExt] is in the code: as [stemOf], except that an
    empty portion (the only ['.'] is the first character, or the name is
    empty) falls back to the whole segment. *)
Definition keptStem (seg : string) : string := JS.orElse (stemOf seg) seg.

(** Does the current extension match the detected format, with the
    jpeg/jpg synonym? *)
Definition extensionMatches (path : string) (detected : MimeType) : bool :=
  String.eqb (currentExtension path) (typeString detected)
  || (String.eqb (currentExtension path) "jpeg" && MimeType_eqb detected jpg).

(** The final path, the outcome row and the archive entry of one file,
    read off one loop iteration. *)
Definition finalPathOf (file : File) : string :=
  d_finalPath (decide (name file) (relativePathOf file) (detectMimeType file) 0).

Definition outcomeOf (file : File) : ProcessedFile :=
  let d := decide (name file) (relativePathOf file) (detectMimeType file) 0 in
  mkProcessedFile (name file) (d_newName d) (relativePathOf file)
                  (detectMimeType file) (d_status d) file.

Definition entryOf (file : File) : string * File := (finalPathOf file, file).

Definition isFixed (s : Status) : bool :=
  match s with FIXED => true | _ => false end.

(** Number of FIXED rows of an outcome log. *)
Definition countFixed (log : list ProcessedFile) : nat :=
  List.length (filter (fun o => isFixed (status o)) log).

(** What the presentation layer can rely on between two iterations. *)
Definition consistent (i : nat) (st : Run) : Prop :=
  processed (stats st) = i
  /\ fixed (stats st) = fixedCount st
  /\ fixedCount st = countFixed (processedFiles st)
  /\ List.length (processedFiles st) = i.

(** The part of a path a rename never touches: its directory segments
    and the kept stem of its last segment. *)
Definition pathKey (path : string) : list string * string :=
  (dirSegments path, keptStem (lastSegment path)).

(** The markers of the specification. *)
Definition PNG_MARKER : list byte := [x89; x50; x4e; x47].
Definition JPEG_MARKER : list byte := [xff; xd8; xff].
Definition GIF_MARKER : list byte := [x47; x49; x46; x38].
Definition RIFF_MARKER : list byte := [x52; x49; x46; x46].
Definition WEBP_TAG : list byte := [x57; x45; x42; x50].

Fixpoint bytes_eqb (a c : list byte) : bool :=
  match a, c with
  | [], [] => true
  | x :: a', y :: c' => Byte.eqb x y && bytes_eqb a' c'
  | _, _ => false
  end.

(** Bytes [from .. from + len - 1] of a prefix, as far as it has them. *)
Definition bytesAt (prefix : list byte) (from len : nat) : list byte :=
  firstn len (skipn from prefix).

(** The detection rules in the specification's words, in priority
    order. *)
Definition spec_detect (prefix : list byte) : MimeType :=
  if bytes_eqb (bytesAt prefix 0 4) PNG_MARKER then png
  else if bytes_eqb (bytesAt prefix 0 3) JPEG_MARKER then jpg
  else if bytes_eqb (bytesAt prefix 0 4) GIF_MARKER then gif
  else if (12 <=? List.length prefix)%nat
          && bytes_eqb (bytesAt prefix 0 4) RIFF_MARKER
          && bytes_eqb (bytesAt prefix 8 4) WEBP_TAG then webp
  else unknown.

(** The digits of a list of bytes, one after the other. *)
Definition hexCat (l : list byte) : string :=
  fold_right (fun x acc => (byteHex x ++ acc)%string) EmptyString l.

(** Reading back upper-case hexadecimal digits. *)
Definition digitValue (c : ascii) : N :=
  match c with
  | "0" => 0 | "1" => 1 | "2" => 2 | "3" => 3 | "4" => 4
  | "5" => 5 | "6" => 6 | "7" => 7 | "8" => 8 | "9" => 9
  | "A" => 10 | "B" => 11 | "C" => 12 | "D" => 13 | "E" => 14
  | "F" => 15 | _ => 0
  end%char%N.

Fixpoint hexValue (s : string) (acc : N) : N :=
  match s with
  | EmptyString => acc
  | String c s' => hexValue s' (16 * acc + digitValue c)%N
  end.

(** All bytes of [l] print as two digits. *)
Definition twoDigits (l : list byte) : Prop :=
  Forall (fun x => String.length (byteHex x) = 2%nat) l.

(** The end-to-end scenario: a real PNG named [a.png], a real GIF named
    [b.jpg] and unrecognised bytes named [c.dat]. *)
Definition exampleBatch : list File :=
  [ mkFile "a.png" "a.png" [x89; x50; x4e; x47; x0d; x0a; x1a; x0a] true;
    mkFile "b.jpg" "b.jpg" [x47; x49; x46; x38; x39; x61] true;
    mkFile "c.dat" "c.dat" [x00; x01; x02; x03] true ].

(** ** src/App.tsx: the handlers around [startProcessing] *)

(** The state of a freshly mounted [App] (the [useState] defaults). *)
Definition initialApp : Run :=
  mkRun IDLE (mkStats 0 0 0 0) EmptyString [] None EmptyString [] [] 0.

(** [validFiles] of [handleFolderSelect]. *)
Definition validFilesOf (files : list File) : list File :=
  filter (fun f => negb (shouldSkipFile (name f))) files.

(** [handleFolderSelect]; [files] is [event.target.files], [None] when
    it is null, and [app] the state the handler finds. *)
Definition handleFolderSelect
           (now : Z) (generateAsync : list (string * File) -> option (list byte))
           (files : option (list File)) (app : Run) : Run :=
  match files with
  | None => app
  | Some fs =>
      if (List.length fs =? 0)%nat then app
      else
        let validFiles := validFilesOf fs in
        if (List.length validFiles =? 0)%nat then
          mkRun (state app) (stats app) (currentFile app) (logs app)
                (zipBlob app) "No valid files found in the selected folder."
                (processedFiles app) (zip app) (fixedCount app)
        else startProcessing now generateAsync validFiles
  end.

(** [downloadZip]: the call [saveAs(zipBlob, "fixed_images.zip")] it
    makes, if any. *)
Definition downloadZip (app : Run) : option (list byte * string) :=
  match zipBlob app with
  | Some blob_ => Some (blob_, "fixed_images.zip")
  | None => None
  end.

(** [reset]. *)
Definition reset (app : Run) : Run :=
  mkRun IDLE (stats app) (currentFile app) [] None (errorMsg app)
        (processedFiles app) (zip app) (fixedCount app).

(** The file an archive entry unpacks to: the entry's path, the new
    name as its last segment, the same bytes. *)
Definition archivedFile (file : File) : File :=
  mkFile (newName (outcomeOf file)) (finalPathOf file) (content file)
         (readable file).

(** Splits a conjunction into its parts, and nothing else. *)
Ltac splits := repeat match goal with |- _ /\ _ => split end.

(** * Auxiliary facts *)

(** Facts about the primitives. *)
Module JSFacts.

Lemma strlen_app s t :
  String.length (s ++ t)%string = (String.length s + String.length t)%nat.
Proof. induction s as [|a s IH]; simpl; [reflexivity|now rewrite IH]. Qed.

Lemma sapp_nil_r s : (s ++ "")%string = s.
Proof. induction s as [|a s IH]; simpl; [reflexivity|now rewrite IH]. Qed.

Lemma sapp_assoc s t u : ((s ++ t) ++ u)%string = (s ++ (t ++ u))%string.
Proof. induction s as [|a s IH]; simpl; [reflexivity|now rewrite IH]. Qed.

Lemma split_nonempty sep s : JS.split sep s <> [].
Proof.
  destruct s as [|a s]; simpl; [discriminate|].
  destruct (Ascii.eqb a sep); [discriminate|].
  destruct (JS.split sep s); discriminate.
Qed.

Lemma lastIndexOf_absent c s :
  contains c s = false -> JS.lastIndexOf c s = (-1)%Z.
Proof.
  induction s as [|a s IH]; simpl; intros H; [reflexivity|].
  apply orb_false_iff in H as [Ha Hs].
  rewrite (IH Hs), Ha. reflexivity.
Qed.

Lemma split_absent c s : contains c s = false -> JS.split c s = [s].
Proof.
  induction s as [|a s IH]; simpl; intros H; [reflexivity|].
  apply orb_false_iff in H as [Ha Hs].
  rewrite Ha, (IH Hs). reflexivity.
Qed.

Lemma split_cons_other c a s :
  Ascii.eqb a c = false ->
  JS.split c (String a s) =
  match JS.split c s with
  | h :: t => String a h :: t
  | [] => [String a EmptyString]
  end.
Proof. intros H; simpl; rewrite H; reflexivity. Qed.

(** A string either has no [c], or splits around its last [c]. *)
Lemma last_occurrence c s :
  (contains c s = false)
  \/ exists pre post,
       s = (pre ++ String c post)%string
       /\ contains c post = false
       /\ contains c s = true
       /\ JS.lastIndexOf c s = Z.of_nat (String.length pre)
       /\ JS.split c s = JS.split c pre ++ [post].
Proof.
  induction s as [|a s IH]; [left; reflexivity|].
  destruct IH as [Hno | (pre & post & Hs & Hpost & Hin & Hidx & Hsplit)].
  - destruct (Ascii.eqb a c) eqn:Hac.
    + right. exists EmptyString, s.
      apply Ascii.eqb_eq in Hac; subst a.
      simpl. rewrite Ascii.eqb_refl, (lastIndexOf_absent _ _ Hno),
        (split_absent _ _ Hno).
      repeat split; auto.
    + left. simpl. rewrite Hac, Hno. reflexivity.
  - right. exists (String a pre), post.
    repeat split.
    + simpl. now rewrite <- Hs.
    + assumption.
    + simpl. rewrite Hin. apply orb_true_r.
    + cbn [JS.lastIndexOf]. rewrite Hidx.
      destruct (0 <=? Z.of_nat (String.length pre))%Z eqn:E.
      * cbn [String.length]. lia.
      * apply Z.leb_gt in E. lia.
    + cbn [JS.split]. rewrite Hsplit.
      destruct (Ascii.eqb a c); [reflexivity|].
      pose proof (split_nonempty c pre) as Hne.
      destruct (JS.split c pre) as [|h t]; [contradiction|reflexivity].
Qed.

Lemma lastIndexOf_range c s :
  contains c s = true ->
  (0 <= JS.lastIndexOf c s < Z.of_nat (String.length s))%Z.
Proof.
  intros H. destruct (last_occurrence c s)
    as [Hno | (pre & post & Hs & _ & _ & Hidx & _)]; [congruence|].
  rewrite Hidx, Hs, strlen_app.
  cbn [String.length]. lia.
Qed.

Lemma substring_0_app pre post :
  String.substring 0 (String.length pre) (pre ++ post)%string = pre.
Proof.
  induction pre as [|a pre IH]; simpl.
  - destruct post; reflexivity.
  - now rewrite IH.
Qed.

Lemma substring_whole s n :
  (String.length s <= n)%nat -> String.substring 0 n s = s.
Proof.
  revert n; induction s as [|a s IH]; intros n H.
  - destruct n; reflexivity.
  - destruct n; simpl in *; [lia|]. rewrite IH; [reflexivity|lia].
Qed.

Lemma substring_skip_app pre post n :
  String.substring (String.length pre) n (pre ++ post)%string =
  String.substring 0 n post.
Proof.
  induction pre as [|a pre IH]; simpl; [reflexivity|]. exact IH.
Qed.

Lemma lastIndexOf_app c pre post :
  contains c post = false ->
  JS.lastIndexOf c (pre ++ String c post) = Z.of_nat (String.length pre).
Proof.
  intros Hpost. induction pre as [|a pre IH].
  - simpl. now rewrite (lastIndexOf_absent _ _ Hpost), Ascii.eqb_refl.
  - cbn [append JS.lastIndexOf String.length]. rewrite IH.
    destruct (0 <=? Z.of_nat (String.length pre))%Z eqn:E; [lia|].
    apply Z.leb_gt in E. lia.
Qed.

Lemma contains_app c s t :
  contains c (s ++ t) = contains c s || contains c t.
Proof.
  induction s as [|a s IH]; simpl; [reflexivity|].
  now rewrite IH, orb_assoc.
Qed.

Lemma split_app_sep c pre post :
  contains c pre = false ->
  JS.split c (pre ++ String c post) = pre :: JS.split c post.
Proof.
  induction pre as [|a pre IH]; simpl; intros H.
  - now rewrite Ascii.eqb_refl.
  - apply orb_false_iff in H as [Ha Hp]. now rewrite Ha, (IH Hp).
Qed.

Lemma concat_cons2 sep x y (l : list string) :
  concat sep (x :: y :: l) = (x ++ sep ++ concat sep (y :: l))%string.
Proof. reflexivity. Qed.

Lemma join_split c s : JS.join (String c EmptyString) (JS.split c s) = s.
Proof.
  unfold JS.join.
  induction s as [|a s IH]; [reflexivity|].
  cbn [JS.split].
  pose proof (split_nonempty c s) as Hne.
  destruct (JS.split c s) as [|h t]; [contradiction|].
  destruct (Ascii.eqb a c) eqn:E.
  - apply Ascii.eqb_eq in E; subst a.
    rewrite concat_cons2, IH. reflexivity.
  - destruct t as [|h' t].
    + simpl in *. now rewrite IH.
    + rewrite <- IH, !concat_cons2. reflexivity.
Qed.

Lemma split_segments_clean c s :
  Forall (fun seg => contains c seg = false) (JS.split c s).
Proof.
  induction s as [|a s IH]; [repeat constructor|].
  cbn [JS.split]. destruct (Ascii.eqb a c) eqn:E.
  - constructor; [reflexivity|exact IH].
  - pose proof (split_nonempty c s) as Hne.
    destruct (JS.split c s) as [|h t]; [contradiction|].
    inversion IH; subst. constructor; [|assumption].
    simpl. now rewrite E.
Qed.

Lemma split_join c parts :
  parts <> [] ->
  Forall (fun seg => contains c seg = false) parts ->
  JS.split c (JS.join (String c EmptyString) parts) = parts.
Proof.
  induction parts as [|x parts IH]; intros Hne Hall; [contradiction|].
  inversion Hall as [|? ? Hx Hrest]; subst.
  destruct parts as [|y parts].
  - simpl. now apply split_absent.
  - unfold JS.join in *. rewrite concat_cons2.
    change (String c "" ++ concat (String c "") (y :: parts))%string
      with (String c (concat (String c "") (y :: parts))).
    rewrite (split_app_sep _ _ _ Hx), IH; [reflexivity|discriminate|assumption].
Qed.

Lemma last_app_single (l : list string) x d : last (l ++ [x]) d = x.
Proof. apply last_last. Qed.

Lemma removelast_app_single (l : list string) x : removelast (l ++ [x]) = l.
Proof. apply removelast_last. Qed.

End JSFacts.

Module PolicyFacts.
Import JSFacts.

Lemma dot_decomposition seg :
  contains "."%char seg = true ->
  exists pre post,
    seg = (pre ++ "." ++ post)%string
    /\ contains "."%char post = false
    /\ JS.lastIndexOf "."%char seg = Z.of_nat (String.length pre)
    /\ beforeLastDot seg = pre
    /\ afterLastDot seg = post
    /\ JS.split "."%char seg = JS.split "."%char pre ++ [post].
Proof.
  intros H. destruct (last_occurrence "."%char seg)
    as [Hno | (pre & post & Hs & Hpost & _ & Hidx & Hsplit)]; [congruence|].
  exists pre, post. unfold beforeLastDot, afterLastDot.
  rewrite Hidx, Nat2Z.id. subst seg.
  repeat split; auto.
  - apply substring_0_app.
  - change (S (String.length pre))
      with (String.length (String "."%char EmptyString) + String.length pre)%nat.
    rewrite Nat.add_comm.
    replace (String.length pre + String.length ".")%nat
      with (String.length (pre ++ "."))%string by apply strlen_app.
    change (pre ++ String "." post)%string with (pre ++ ("." ++ post))%string.
    rewrite <- sapp_assoc, substring_skip_app.
    apply substring_whole. rewrite !strlen_app. lia.
Qed.

Lemma getExtension_spec seg :
  getExtension seg =
  if contains "."%char seg then JS.toLowerCase (afterLastDot seg)
  else EmptyString.
Proof.
  unfold getExtension. destruct (contains "."%char seg) eqn:H.
  - destruct (dot_decomposition seg H)
      as (pre & post & _ & _ & _ & _ & Hafter & Hsplit).
    rewrite Hsplit, Hafter, last_app_single, List.length_app.
    pose proof (split_nonempty "."%char pre) as Hne.
    destruct (JS.split "."%char pre) as [|h t]; [contradiction|].
    cbn [List.length Nat.add]. 
    replace (S (List.length t + 1) =? 1)%nat with false
      by (symmetry; apply Nat.eqb_neq; lia).
    destruct (JS.toLowerCase post); reflexivity.
  - now rewrite (split_absent _ _ H).
Qed.

Lemma nameWithoutExt_spec seg :
  JS.orElse (JS.substring seg 0 (JS.lastIndexOf "."%char seg)) seg
  = keptStem seg.
Proof.
  unfold keptStem, stemOf, JS.substring, beforeLastDot.
  destruct (contains "."%char seg) eqn:H.
  - pose proof (lastIndexOf_range _ _ H) as Hr.
    replace (Z.max 0 (Z.min 0 (Z.of_nat (String.length seg)))) with 0%Z by lia.
    replace (Z.max 0 (Z.min (JS.lastIndexOf "." seg)
                            (Z.of_nat (String.length seg))))
      with (JS.lastIndexOf "."%char seg) by lia.
    replace (Z.min 0 (JS.lastIndexOf "." seg)) with 0%Z by lia.
    replace (Z.max 0 (JS.lastIndexOf "." seg) - 0)%Z
      with (JS.lastIndexOf "."%char seg) by lia.
    reflexivity.
  - rewrite (lastIndexOf_absent _ _ H).
    replace (Z.max 0 (Z.min 0 (Z.of_nat (String.length seg)))) with 0%Z by lia.
    replace (Z.max 0 (Z.min (-1) (Z.of_nat (String.length seg))))
      with 0%Z by lia.
    simpl. destruct seg; reflexivity.
Qed.

Lemma assignAt_snoc v (l : list string) x :
  assignAt (List.length l) v (l ++ [x]) = l ++ [v].
Proof. induction l as [|a l IH]; simpl; [reflexivity|now rewrite IH]. Qed.

Lemma assignAt_last v (parts : list string) :
  parts <> [] ->
  assignAt (List.length parts - 1) v parts = removelast parts ++ [v].
Proof.
  intros Hne.
  rewrite (app_removelast_last EmptyString Hne) at 1 2.
  rewrite List.length_app. cbn [List.length].
  replace (List.length (removelast parts) + 1 - 1)%nat
    with (List.length (removelast parts)) by lia.
  apply assignAt_snoc.
Qed.

End PolicyFacts.

(** ** Path policy *)

Module PathPolicy.
Import JSFacts PolicyFacts.

Lemma getExtension_lastSegment path :
  getExtension (lastSegment path) = currentExtension path.
Proof. unfold currentExtension. apply getExtension_spec. Qed.

Lemma lastSegment_clean path : contains "/"%char (lastSegment path) = false.
Proof.
  unfold lastSegment, segments.
  pose proof (split_segments_clean "/"%char path) as Hall.
  pose proof (split_nonempty "/"%char path) as Hne.
  rewrite Forall_forall in Hall. apply Hall.
  rewrite (app_removelast_last EmptyString Hne) at 2.
  apply in_or_app. right. left. reflexivity.
Qed.

Lemma dirSegments_clean path :
  Forall (fun seg => contains "/"%char seg = false) (dirSegments path).
Proof.
  unfold dirSegments, segments.
  pose proof (split_segments_clean "/"%char path) as Hall.
  pose proof (split_nonempty "/"%char path) as Hne.
  rewrite (app_removelast_last EmptyString Hne) in Hall.
  apply Forall_app in Hall. tauto.
Qed.

Lemma segments_decomposition path :
  segments path = dirSegments path ++ [lastSegment path].
Proof.
  unfold dirSegments, lastSegment, segments.
  apply app_removelast_last, split_nonempty.
Qed.

Lemma typeString_clean c t :
  c = "/"%char \/ c = "."%char -> contains c (typeString t) = false.
Proof. intros [-> | ->]; destruct t; reflexivity. Qed.

Lemma keptStem_clean seg :
  contains "/"%char seg = false -> contains "/"%char (keptStem seg) = false.
Proof.
  intros H. unfold keptStem, stemOf.
  destruct (contains "."%char seg) eqn:Hdot.
  - destruct (dot_decomposition seg Hdot)
      as (pre & post & Hseg & _ & _ & Hb & _ & _).
    rewrite Hb. pose proof H as Hpre.
    rewrite Hseg, contains_app in Hpre.
    apply orb_false_iff in Hpre as [Hpre _].
    destruct pre; simpl; assumption.
  - destruct seg; simpl; assumption.
Qed.

(** The two tests of the source amount to the specification's match
    with its synonym rule. *)
Lemma match_tests ext t :
  negb (ext =? typeString t)%string
  && negb (((ext =? "jpeg")%string && MimeType_eqb t jpg)
           || ((ext =? "jpg")%string && MimeType_eqb t jpg))
  = negb ((ext =? typeString t)%string
          || ((ext =? "jpeg")%string && MimeType_eqb t jpg)).
Proof.
  destruct t; simpl; rewrite ?andb_false_r, ?andb_true_r, ?orb_false_r;
    try reflexivity.
  destruct (ext =? "jpg")%string, (ext =? "jpeg")%string; reflexivity.
Qed.

(** [decide] on a path whose file name is its last segment, as a
    function of the specification's notions. *)
Lemma decide_spec path detected n :
  decide (lastSegment path) path detected n =
  if MimeType_eqb detected unknown || extensionMatches path detected
  then mkDecision (lastSegment path) path UNCHANGED n
  else
    let newName :=
      (keptStem (lastSegment path) ++ "." ++ typeString detected)%string in
    mkDecision newName (JS.join "/" (dirSegments path ++ [newName]))
               FIXED (S n).
Proof.
  unfold decide, extensionMatches.
  rewrite getExtension_lastSegment, match_tests, nameWithoutExt_spec.
  destruct (MimeType_eqb detected unknown); cbn [negb orb]; [reflexivity|].
  destruct ((currentExtension path =? typeString detected)%string
            || ((currentExtension path =? "jpeg")%string
                && MimeType_eqb detected jpg)); cbn [negb]; [reflexivity|].
  cbv zeta. fold (segments path).
  rewrite assignAt_last by apply split_nonempty.
  reflexivity.
Qed.

Lemma MimeType_eqb_eq a c : MimeType_eqb a c = true <-> a = c.
Proof. destruct a, c; simpl; split; congruence. Qed.

Lemma renamed_segments path stem t :
  contains "/"%char stem = false ->
  segments (JS.join "/" (dirSegments path
                         ++ [(stem ++ "." ++ typeString t)%string]))
  = dirSegments path ++ [(stem ++ "." ++ typeString t)%string].
Proof.
  intros Hstem. unfold segments at 1. apply split_join.
  - destruct (dirSegments path); discriminate.
  - apply Forall_app. split; [apply dirSegments_clean|].
    constructor; [|constructor].
    rewrite !contains_app, Hstem, typeString_clean by auto. reflexivity.
Qed.

Lemma renamed_dirSegments path stem t :
  contains "/"%char stem = false ->
  dirSegments (JS.join "/" (dirSegments path
                            ++ [(stem ++ "." ++ typeString t)%string]))
  = dirSegments path.
Proof.
  intros H. unfold dirSegments at 1.
  rewrite (renamed_segments _ _ _ H). apply removelast_last.
Qed.

Lemma renamed_lastSegment path stem t :
  contains "/"%char stem = false ->
  lastSegment (JS.join "/" (dirSegments path
                            ++ [(stem ++ "." ++ typeString t)%string]))
  = (stem ++ "." ++ typeString t)%string.
Proof.
  intros H. unfold lastSegment at 1.
  rewrite (renamed_segments _ _ _ H). apply last_last.
Qed.

(** On a name that passes the pre-filter of [handleFolderSelect] the
    kept stem is the specification's stem. *)
Lemma keptStem_unskipped seg :
  shouldSkipFile seg = false -> keptStem seg = stemOf seg.
Proof.
  intros H. unfold keptStem, stemOf.
  destruct (contains "."%char seg) eqn:Hdot.
  - destruct (dot_decomposition seg Hdot)
      as (pre & post & Hseg & _ & _ & Hb & _ & _).
    rewrite Hb. destruct pre as [|a pre]; [|reflexivity].
    rewrite Hseg in H. destruct post; discriminate H.
  - destruct seg; reflexivity.
Qed.

Lemma keptStem_nonempty seg : seg <> EmptyString -> keptStem seg <> EmptyString.
Proof.
  intros H. unfold keptStem. destruct (stemOf seg); [exact H|discriminate].
Qed.

Lemma keptStem_renamed stem t :
  stem <> EmptyString ->
  keptStem (stem ++ "." ++ typeString t) = stem.
Proof.
  intros Hne. unfold keptStem, stemOf, beforeLastDot.
  change (stem ++ "." ++ typeString t)%string
    with (stem ++ String "."%char (typeString t))%string.
  rewrite contains_app. cbn [contains]. rewrite Ascii.eqb_refl.
  rewrite orb_true_r.
  rewrite lastIndexOf_app by (apply typeString_clean; auto).
  rewrite Nat2Z.id, substring_0_app.
  destruct stem; [contradiction|reflexivity].
Qed.

End PathPolicy.

Module Pipeline.


Lemma decide_independent fileName relativePath realType n :
  let d := decide fileName relativePath realType n in
  let d0 := decide fileName relativePath realType 0 in
  d_newName d = d_newName d0
  /\ d_finalPath d = d_finalPath d0
  /\ d_status d = d_status d0
  /\ d_fixedCount d = (n + if isFixed (d_status d0) then 1 else 0)%nat.
Proof.
  unfold decide.
  destruct (negb (MimeType_eqb realType unknown)); cbn;
    [|repeat split; lia].
  match goal with |- context [if ?c then _ else _] => destruct c end;
    cbn; repeat split; lia.
Qed.

Lemma iteration_spec i file st :
  let st' := iteration i file st in
  processedFiles st' = processedFiles st ++ [outcomeOf file]
  /\ zip st' = zip st ++ [entryOf file]
  /\ fixedCount st' =
     (fixedCount st + if isFixed (status (outcomeOf file)) then 1 else 0)%nat
  /\ fixed (stats st') = fixedCount st'
  /\ processed (stats st') = S i
  /\ total (stats st') = total (stats st)
  /\ startTime (stats st') = startTime (stats st)
  /\ state st' = state st
  /\ logs st' = firstn 500 (outcomeOf file :: logs st).
Proof.
  destruct (decide_independent (name file) (relativePathOf file)
              (detectMimeType file) (fixedCount st)) as (Hn & Hp & Hs & Hc).
  unfold iteration, outcomeOf, entryOf, finalPathOf. cbn.
  rewrite Hn, Hp, Hs, Hc. repeat split. lia.
Qed.

Lemma countFixed_snoc log o :
  countFixed (log ++ [o]) =
  (countFixed log + if isFixed (status o) then 1 else 0)%nat.
Proof.
  unfold countFixed. rewrite filter_app, List.length_app. simpl.
  destruct (isFixed (status o)); reflexivity.
Qed.

Lemma iteration_consistent i file st :
  consistent i st -> consistent (S i) (iteration i file st).
Proof.
  intros (Hp & Hf & Hc & Hl).
  destruct (iteration_spec i file st)
    as (Ho & _ & Hfc & Hfx & Hpr & _).
  unfold consistent. rewrite Hpr, Hfx, Hfc, Ho, countFixed_snoc, Hc.
  rewrite List.length_app. simpl. repeat split; lia.
Qed.

Lemma loop_app i l1 l2 st :
  loop i (l1 ++ l2) st = loop (i + List.length l1) l2 (loop i l1 st).
Proof.
  revert i st; induction l1 as [|f l1 IH]; intros i st; simpl.
  - now rewrite Nat.add_0_r.
  - rewrite IH. f_equal. lia.
Qed.

Lemma loop_spec files : forall i st,
  let st' := loop i files st in
  processedFiles st' = processedFiles st ++ map outcomeOf files
  /\ zip st' = zip st ++ map entryOf files
  /\ total (stats st') = total (stats st)
  /\ startTime (stats st') = startTime (stats st)
  /\ state st' = state st
  /\ (consistent i st -> consistent (i + List.length files) st').
Proof.
  induction files as [|f files IH]; intros i st; cbn [loop map List.length].
  - rewrite !app_nil_r, Nat.add_0_r. splits; auto.
  - destruct (IH (S i) (iteration i f st)) as (Ho & Hz & Ht & Hs & Hst & Hc).
    destruct (iteration_spec i f st)
      as (Ho1 & Hz1 & _ & _ & _ & Ht1 & Hs1 & Hst1 & _).
    cbv zeta. rewrite Ho, Hz, Ht, Hs, Hst, Ho1, Hz1, Ht1, Hs1, Hst1.
    rewrite <- !app_assoc. splits; auto.
    intros Hi. replace (i + S (List.length files))%nat
      with (S i + List.length files)%nat by lia.
    apply Hc, iteration_consistent, Hi.
Qed.

Lemma begin_consistent now files : consistent 0 (begin now files).
Proof. repeat split. Qed.

Lemma startProcessing_loop now generateAsync files :
  let st := loop 0 files (begin now files) in
  let run := startProcessing now generateAsync files in
  processedFiles run = processedFiles st
  /\ zip run = zip st
  /\ stats run = stats st
  /\ logs run = logs st
  /\ state run = match generateAsync (zip st) with
                 | Some _ => COMPLETED
                 | None => ERROR
                 end.
Proof.
  unfold startProcessing. cbv zeta.
  destruct (generateAsync (zip (loop 0 files (begin now files))));
    repeat split.
Qed.

Lemma countFixed_app l1 l2 :
  countFixed (l1 ++ l2) = (countFixed l1 + countFixed l2)%nat.
Proof. unfold countFixed. now rewrite filter_app, List.length_app. Qed.

Lemma countFixed_le log : (countFixed log <= List.length log)%nat.
Proof. apply filter_length_le. Qed.

Lemma firstn_succ (l : list File) : forall k file,
  nth_error l k = Some file -> firstn (S k) l = firstn k l ++ [file].
Proof.
  induction l as [|x l IH]; intros [|k] file H; simpl in *;
    try discriminate.
  - now inversion H.
  - f_equal. now apply IH.
Qed.

Lemma stateAfter_spec now files k :
  (k <= List.length files)%nat ->
  let st := stateAfter now files k in
  total (stats st) = List.length files
  /\ processedFiles st = map outcomeOf (firstn k files)
  /\ zip st = map entryOf (firstn k files)
  /\ consistent k st.
Proof.
  intros Hk. unfold stateAfter.
  destruct (loop_spec (firstn k files) 0 (begin now files))
    as (Ho & Hz & Ht & _ & _ & Hc).
  cbv zeta. rewrite Ho, Hz, Ht. splits; try reflexivity.
  specialize (Hc (begin_consistent now files)).
  rewrite length_firstn, Nat.min_l in Hc by exact Hk. exact Hc.
Qed.

Lemma stateAfter_succ now files k file :
  nth_error files k = Some file ->
  stateAfter now files (S k) = iteration k file (stateAfter now files k).
Proof.
  intros H. unfold stateAfter.
  rewrite (firstn_succ _ _ _ H), loop_app.
  assert (Hk : (k < List.length files)%nat)
    by (apply nth_error_Some; congruence).
  rewrite length_firstn, Nat.min_l by lia. reflexivity.
Qed.

Lemma stateAfter_all now files :
  stateAfter now files (List.length files) = loop 0 files (begin now files).
Proof. unfold stateAfter. now rewrite firstn_all. Qed.

Lemma Forall_firstn (P : ProcessedFile -> Prop) n : forall l,
  Forall P l -> Forall P (firstn n l).
Proof.
  induction n as [|n IH]; intros l H; [constructor|].
  destruct H; simpl; constructor; auto.
Qed.

Lemma loop_logs (P : ProcessedFile -> Prop) :
  (forall file, P (outcomeOf file)) ->
  forall files i st, Forall P (logs st) -> Forall P (logs (loop i files st)).
Proof.
  intros HP. induction files as [|f files IH]; intros i st H; [exact H|].
  cbn [loop]. apply IH.
  destruct (iteration_spec i f st) as (_ & _ & _ & _ & _ & _ & _ & _ & Hl).
  rewrite Hl. apply Forall_firstn. constructor; auto.
Qed.

Lemma finalPath_key file :
  name file = lastSegment (relativePathOf file) ->
  name file <> EmptyString ->
  pathKey (finalPathOf file) = pathKey (relativePathOf file).
Proof.
  intros Hwf Hne. unfold finalPathOf. rewrite Hwf.
  rewrite PathPolicy.decide_spec.
  destruct (MimeType_eqb (detectMimeType file) unknown
            || extensionMatches (relativePathOf file) (detectMimeType file));
    [reflexivity|].
  cbv zeta. cbn [d_finalPath]. unfold pathKey.
  assert (Hclean : contains "/"%char
                     (keptStem (lastSegment (relativePathOf file))) = false)
    by apply PathPolicy.keptStem_clean, PathPolicy.lastSegment_clean.
  rewrite (PathPolicy.renamed_dirSegments _ _ _ Hclean).
  rewrite (PathPolicy.renamed_lastSegment _ _ _ Hclean).
  rewrite PathPolicy.keptStem_renamed; [reflexivity|].
  apply PathPolicy.keptStem_nonempty. now rewrite <- Hwf.
Qed.

Lemma NoDup_map_through {A B C : Type} (g : A -> B) (k : A -> C)
      (l : list A) :
  (forall x y, In x l -> In y l -> g x = g y -> k x = k y) ->
  NoDup (map k l) -> NoDup (map g l).
Proof.
  induction l as [|a l IH]; intros Hgk Hk; [constructor|].
  cbn [map] in *. inversion Hk as [|? ? Hnot Hrest]; subst.
  constructor.
  - intros Hin. apply in_map_iff in Hin as (y & Hy & Hyl).
    apply Hnot. apply in_map_iff. exists y. split; [|exact Hyl].
    apply Hgk; [right; exact Hyl|left; reflexivity|exact Hy].
  - apply IH; [|exact Hrest].
    intros x y Hx Hy. apply Hgk; right; assumption.
Qed.

Lemma outcome_status file :
  status (outcomeOf file) = FIXED \/ status (outcomeOf file) = UNCHANGED.
Proof.
  unfold outcomeOf, decide. cbn [status].
  destruct (negb (MimeType_eqb (detectMimeType file) unknown));
    [|right; reflexivity].
  match goal with |- context [if ?c then _ else _] => destruct c end;
    [left|right]; reflexivity.
Qed.

End Pipeline.

Module DetectorFacts.
Import JSFacts.

Lemma bytes_eqb_eq a c : bytes_eqb a c = true <-> a = c.
Proof.
  revert c; induction a as [|x a IH]; intros [|y c]; simpl;
    try (split; [discriminate|discriminate]); [tauto|].
  rewrite andb_true_iff, IH. split.
  - intros [H ->]. now rewrite (Byte.byte_dec_bl _ _ H).
  - intros H; inversion H; subst. split; [now apply Byte.byte_dec_lb|easy].
Qed.

Lemma byteHex_value x : hexValue (byteHex x) 0 = Byte.to_N x.
Proof. destruct x; vm_compute; reflexivity. Qed.

Lemma byteHex_inj x y : byteHex x = byteHex y -> x = y.
Proof.
  intros H. apply (f_equal (fun s => Byte.of_N (hexValue s 0))) in H.
  rewrite !byteHex_value, !Byte.of_to_N in H. now inversion H.
Qed.

Lemma byteHex_length x :
  (1 <= String.length (byteHex x) <= 2)%nat.
Proof. destruct x; vm_compute; lia. Qed.

Lemma headerOf_acc l : forall acc,
  fold_left (fun header x => (header ++ byteHex x)%string) l acc
  = (acc ++ hexCat l)%string.
Proof.
  induction l as [|x l IH]; intros acc; simpl.
  - now rewrite sapp_nil_r.
  - now rewrite IH, sapp_assoc.
Qed.

Lemma headerOf_hexCat l : headerOf l = hexCat l.
Proof. unfold headerOf. now rewrite headerOf_acc. Qed.

Lemma hexJoin_hexCat l : hexJoin l = hexCat l.
Proof.
  unfold hexJoin, JS.join. induction l as [|x l IH]; [reflexivity|].
  destruct l as [|y l].
  - simpl. now rewrite sapp_nil_r.
  - cbn [map]. rewrite concat_cons2. cbn [map] in IH. rewrite IH.
    reflexivity.
Qed.

Lemma hexCat_app l1 l2 : hexCat (l1 ++ l2) = (hexCat l1 ++ hexCat l2)%string.
Proof.
  induction l1 as [|x l1 IH]; simpl; [reflexivity|].
  now rewrite IH, sapp_assoc.
Qed.

Lemma hexCat_length l : (String.length (hexCat l) <= 2 * List.length l)%nat.
Proof.
  induction l as [|x l IH]; simpl; [lia|].
  rewrite strlen_app. pose proof (byteHex_length x). lia.
Qed.


Lemma hexCat_full l :
  String.length (hexCat l) = (2 * List.length l)%nat -> twoDigits l.
Proof.
  induction l as [|x l IH]; intros H; [constructor|].
  simpl in H. rewrite strlen_app in H.
  pose proof (byteHex_length x). pose proof (hexCat_length l).
  constructor; [lia|]. apply IH. lia.
Qed.

Lemma app_inv_same_length s1 : forall s2 t1 t2,
  String.length s1 = String.length s2 ->
  (s1 ++ t1)%string = (s2 ++ t2)%string -> s1 = s2 /\ t1 = t2.
Proof.
  induction s1 as [|a s1 IH]; intros [|c s2] t1 t2 Hl H; simpl in *;
    try discriminate; [tauto|].
  inversion H; subst. destruct (IH s2 t1 t2) as [-> ->]; auto.
Qed.

Lemma hexCat_inj l : forall l',
  twoDigits l -> twoDigits l' -> hexCat l = hexCat l' -> l = l'.
Proof.
  induction l as [|x l IH]; intros [|y l'] Hl Hl' H.
  - reflexivity.
  - inversion Hl'; subst. apply (f_equal String.length) in H.
    simpl in H. rewrite strlen_app in H. lia.
  - inversion Hl; subst. apply (f_equal String.length) in H.
    simpl in H. rewrite strlen_app in H. lia.
  - inversion Hl; inversion Hl'; subst. simpl in H.
    apply app_inv_same_length in H as [Hx Hrest]; [|congruence].
    f_equal; [now apply byteHex_inj|now apply IH].
Qed.

Lemma prefix_length p : forall s,
  prefix p s = true -> (String.length p <= String.length s)%nat.
Proof.
  induction p as [|a p IH]; intros [|c s] H; simpl in *; try lia;
    try discriminate.
  destruct (ascii_dec a c); [|discriminate]. apply IH in H. lia.
Qed.

Lemma prefix_same_length p : forall s,
  prefix p s = true -> String.length p = String.length s -> p = s.
Proof.
  induction p as [|a p IH]; intros [|c s] H Hl; simpl in *;
    try discriminate; [reflexivity|].
  destruct (ascii_dec a c); [|discriminate]. subst.
  f_equal. apply IH; [exact H|lia].
Qed.

Lemma prefix_app p s : prefix p (p ++ s) = true.
Proof.
  induction p as [|a p IH]; simpl; [destruct s; reflexivity|].
  destruct (ascii_dec a a); [exact IH|contradiction].
Qed.

(** A marker of two-digit bytes is never matched by accident: a list
    of at most as many bytes whose digits start with the marker's
    digits is the marker. *)
Lemma marker_exact (marker l : list byte) :
  twoDigits marker ->
  (List.length l <= List.length marker)%nat ->
  prefix (hexCat marker) (hexCat l) = true ->
  l = marker.
Proof.
  intros Hm Hlen Hp.
  assert (Hml : String.length (hexCat marker) = (2 * List.length marker)%nat).
  { clear -Hm. induction Hm as [|x m Hx _ IH]; [reflexivity|].
    simpl. rewrite strlen_app, Hx, IH. lia. }
  pose proof (prefix_length _ _ Hp) as H1.
  pose proof (hexCat_length l) as H2.
  assert (Hll : String.length (hexCat l) = (2 * List.length l)%nat) by lia.
  apply prefix_same_length in Hp; [|lia].
  symmetry. apply hexCat_inj; [exact Hm|now apply hexCat_full|exact Hp].
Qed.

Lemma prefix_refl p : prefix p p = true.
Proof. rewrite <- (sapp_nil_r p) at 2. apply prefix_app. Qed.

(** The test of a four-byte marker on [header] is exact. *)
Lemma marker_test (marker buf : list byte) :
  twoDigits marker -> List.length marker = 4%nat ->
  JS.startsWith (headerOf (firstn 4 buf)) (hexCat marker)
  = bytes_eqb (bytesAt buf 0 4) marker.
Proof.
  intros Hm Hlen. unfold JS.startsWith, bytesAt. cbn [skipn].
  rewrite headerOf_hexCat.
  destruct (bytes_eqb (firstn 4 buf) marker) eqn:E.
  - apply bytes_eqb_eq in E. rewrite E. apply prefix_refl.
  - destruct (prefix (hexCat marker) (hexCat (firstn 4 buf))) eqn:P;
      [|reflexivity].
    apply marker_exact in P; [|exact Hm|rewrite Hlen; apply firstn_le_length].
    apply bytes_eqb_eq in P. congruence.
Qed.

(** So is the comparison of the digits of four bytes with a marker's. *)
Lemma marker_equal (marker l : list byte) :
  twoDigits marker -> (List.length l <= List.length marker)%nat ->
  String.eqb (hexJoin l) (hexCat marker) = bytes_eqb l marker.
Proof.
  intros Hm Hlen. rewrite hexJoin_hexCat.
  destruct (bytes_eqb l marker) eqn:E.
  - apply bytes_eqb_eq in E. rewrite E. apply String.eqb_refl.
  - apply String.eqb_neq. intros H.
    assert (P : prefix (hexCat marker) (hexCat l) = true)
      by (rewrite H; apply prefix_refl).
    apply marker_exact in P; [|exact Hm|exact Hlen].
    apply bytes_eqb_eq in P. congruence.
Qed.

(** The JPEG test accepts every prefix that starts with the marker. *)
Lemma jpeg_test_complete (buf : list byte) :
  bytes_eqb (bytesAt buf 0 3) JPEG_MARKER = true ->
  JS.startsWith (headerOf (firstn 4 buf)) "FFD8FF" = true.
Proof.
  unfold bytesAt. cbn [skipn]. intros H. apply bytes_eqb_eq in H.
  destruct buf as [|a [|c [|d rest]]]; try discriminate H.
  cbn [firstn] in H. inversion H; subst.
  unfold JS.startsWith. rewrite headerOf_hexCat.
  change (firstn 4 (xff :: xd8 :: xff :: rest))
    with (JPEG_MARKER ++ firstn 1 rest).
  rewrite hexCat_app.
  change (hexCat JPEG_MARKER) with "FFD8FF". apply prefix_app.
Qed.

Lemma twoDigits_markers :
  twoDigits PNG_MARKER /\ twoDigits GIF_MARKER
  /\ twoDigits RIFF_MARKER /\ twoDigits WEBP_TAG.
Proof. repeat split; repeat constructor. Qed.

(** [onloadend] on a buffer, with each test replaced by the byte
    comparison it is exact for; the JPEG test stays as it is. *)
Lemma detect_tests (buf : list byte) :
  detect buf =
  if bytes_eqb (bytesAt buf 0 4) PNG_MARKER then png
  else if JS.startsWith (headerOf (firstn 4 buf)) "FFD8FF" then jpg
  else if bytes_eqb (bytesAt buf 0 4) GIF_MARKER then gif
  else if (12 <=? List.length buf)%nat
          && bytes_eqb (bytesAt buf 0 4) RIFF_MARKER
          && bytes_eqb (bytesAt buf 8 4) WEBP_TAG then webp
  else unknown.
Proof.
  destruct twoDigits_markers as (Hpng & Hgif & Hriff & Hwebp).
  unfold detect, onloadend. cbv zeta.
  change "89504E47" with (hexCat PNG_MARKER).
  change "47494638" with (hexCat GIF_MARKER).
  change "52494646" with (hexCat RIFF_MARKER).
  change "57454250" with (hexCat WEBP_TAG).
  rewrite (marker_test _ _ Hpng eq_refl), (marker_test _ _ Hgif eq_refl).
  rewrite (marker_equal RIFF_MARKER (firstn 4 buf) Hriff
             (firstn_le_length 4 buf)).
  rewrite (marker_equal WEBP_TAG (firstn 4 (skipn 8 buf)) Hwebp
             (firstn_le_length 4 _)).
  unfold bytesAt. cbn [skipn].
  destruct (bytes_eqb (firstn 4 buf) PNG_MARKER); [reflexivity|].
  destruct (JS.startsWith (headerOf (firstn 4 buf)) "FFD8FF"); [reflexivity|].
  destruct (bytes_eqb (firstn 4 buf) GIF_MARKER); [reflexivity|].
  destruct (12 <=? List.length buf)%nat; reflexivity.
Qed.

(** The detector and the specification's rules differ on a prefix
    only when the detector says JPEG and the rules say UNKNOWN. *)
Lemma detect_differs_only_on_jpeg (buf : list byte) :
  detect buf = spec_detect buf
  \/ (detect buf = jpg /\ spec_detect buf = unknown
      /\ bytesAt buf 0 3 <> JPEG_MARKER).
Proof.
  rewrite detect_tests. unfold spec_detect.
  destruct (bytes_eqb (bytesAt buf 0 4) PNG_MARKER); [left; reflexivity|].
  destruct (bytes_eqb (bytesAt buf 0 3) JPEG_MARKER) eqn:J.
  - rewrite (jpeg_test_complete _ J). left; reflexivity.
  - destruct (JS.startsWith (headerOf (firstn 4 buf)) "FFD8FF") eqn:T;
      [|left; reflexivity].
    right. split; [reflexivity|]. split.
    + unfold bytesAt in *. cbn [skipn] in *.
      destruct (bytes_eqb (firstn 4 buf) GIF_MARKER) eqn:G.
      { apply bytes_eqb_eq in G. rewrite G in T. discriminate T. }
      destruct (bytes_eqb (firstn 4 buf) RIFF_MARKER) eqn:R.
      { apply bytes_eqb_eq in R. rewrite R in T. discriminate T. }
      now rewrite andb_false_r.
    + intros E. apply bytes_eqb_eq in E. congruence.
Qed.

End DetectorFacts.

(** * Properties *)

(** ** Signature detector *)

Example detect_literals :
  detect [x89; x50; x4e; x47; x0d; x0a; x1a; x0a] = png
  /\ detect [xff; xd8; xff; xe0; x00; x10; x4a; x46; x49; x46] = jpg
  /\ detect [x47; x49; x46; x38; x39; x61] = gif
  /\ detect [x52; x49; x46; x46; x00; x00; x00; x00; x57; x45; x42; x50] = webp
  /\ detect [x00; x01; x02; x03] = unknown.
Proof. vm_compute. repeat split. Qed.

(** C1.  The bytes FF D8 0F F0 do not start with FF D8 FF and match no
    rule of the specification, yet the detector classifies them as
    JPEG: the hexadecimal digits of a byte below 16 are not padded, so
    the header reads "FFD8FF0".  Everywhere else the detector follows
    the rules: a prefix on which the two differ is one the detector
    calls JPEG and the rules call UNKNOWN. *)
Theorem detect_jpeg_without_marker :
  headerOf (firstn 4 [xff; xd8; x0f; xf0]) = "FFD8FF0"
  /\ bytesAt [xff; xd8; x0f; xf0] 0 3 <> JPEG_MARKER
  /\ spec_detect [xff; xd8; x0f; xf0] = unknown
  /\ detect [xff; xd8; x0f; xf0] = jpg
  /\ (forall prefix : list byte,
         detect prefix = spec_detect prefix
         \/ (detect prefix = jpg /\ spec_detect prefix = unknown)).
Proof.
  split; [reflexivity|]. split; [discriminate|].
  split; [reflexivity|]. split; [reflexivity|].
  intros prefix.
  destruct (DetectorFacts.detect_differs_only_on_jpeg prefix)
    as [E | (Hj & Hu & _)]; [left; exact E|right; split; assumption].
Qed.

(** C5.  The detector is total, and on a read failure it answers
    UNKNOWN; but the four bytes 0F FD 8F F0, a prefix shorter than 12
    bytes that matches none of the PNG, JPEG and GIF markers, are
    classified as JPEG and not as UNKNOWN (their unpadded digits read
    "FFD8FF0"). *)
Theorem detect_short_prefix_not_unknown :
  (List.length [x0f; xfd; x8f; xf0] < 12)%nat
  /\ bytesAt [x0f; xfd; x8f; xf0] 0 4 <> PNG_MARKER
  /\ bytesAt [x0f; xfd; x8f; xf0] 0 3 <> JPEG_MARKER
  /\ bytesAt [x0f; xfd; x8f; xf0] 0 4 <> GIF_MARKER
  /\ headerOf (firstn 4 [x0f; xfd; x8f; xf0]) = "FFD8FF0"
  /\ detect [x0f; xfd; x8f; xf0] = jpg
  /\ detectMimeType (mkFile "x.dat" "x.dat" [x0f; xfd; x8f; xf0] true) = jpg
  /\ (forall prefix : list byte, exists t : MimeType, detect prefix = t)
  /\ (forall (fileName path : string) (bytes : list byte),
         detectMimeType (mkFile fileName path bytes false) = unknown).
Proof.
  split; [simpl; lia|]. split; [discriminate|]. split; [discriminate|].
  split; [discriminate|]. split; [reflexivity|]. split; [reflexivity|].
  split; [reflexivity|]. split.
  - intros prefix. eexists. reflexivity.
  - intros fileName path bytes. reflexivity.
Qed.

(** ** Path policy *)

Example photo_jpeg_unchanged :
  decide "photo.jpeg" "photo.jpeg" jpg 0
  = mkDecision "photo.jpeg" "photo.jpeg" UNCHANGED 0.
Proof. reflexivity. Qed.

Example no_extension_fixed :
  decide "IMG_001" "IMG_001" png 0
  = mkDecision "IMG_001.png" "IMG_001.png" FIXED 1.
Proof. reflexivity. Qed.

Example directory_preserved :
  decide "pic.png" "album/sub/pic.png" gif 0
  = mkDecision "pic.gif" "album/sub/pic.gif" FIXED 1.
Proof. reflexivity. Qed.

(** C4.  [decide] answers UNCHANGED with the final path equal to the
    original path if and only if the detected format is UNKNOWN, or the
    current extension (lower-cased text after the last ['.'] of the last
    segment, empty without ['.']) is the detected format's canonical
    extension, or the current extension is "jpeg" and the detected
    format is JPEG. *)
Theorem decide_unchanged_iff (originalPath : string) (detected : MimeType)
        (n : nat) :
  (d_status (decide (lastSegment originalPath) originalPath detected n)
   = UNCHANGED
   /\ d_finalPath (decide (lastSegment originalPath) originalPath detected n)
      = originalPath)
  <->
  (detected = unknown
   \/ currentExtension originalPath = typeString detected
   \/ (currentExtension originalPath = "jpeg" /\ detected = jpg)).
Proof.
  rewrite PathPolicy.decide_spec. unfold extensionMatches.
  destruct (MimeType_eqb detected unknown) eqn:Hu; cbn [orb].
  - apply PathPolicy.MimeType_eqb_eq in Hu. cbn. tauto.
  - destruct (currentExtension originalPath =? typeString detected)%string
      eqn:He; cbn [orb].
    + apply String.eqb_eq in He. cbn. tauto.
    + destruct (currentExtension originalPath =? "jpeg")%string eqn:Hj;
        cbn [andb].
      * destruct (MimeType_eqb detected jpg) eqn:Hd.
        -- apply String.eqb_eq in Hj.
           apply PathPolicy.MimeType_eqb_eq in Hd. cbn. tauto.
        -- cbn. split; [intros [H _]; discriminate|].
           apply String.eqb_neq in He.
           intros [-> | [H | [_ ->]]]; [discriminate|contradiction|discriminate].
      * cbn. split; [intros [H _]; discriminate|].
        apply String.eqb_neq in He. apply String.eqb_neq in Hj.
        intros [-> | [H | [H _]]]; [discriminate|contradiction|contradiction].
Qed.

(** A name whose only ['.'] is its first character never reaches the
    renaming logic: [handleFolderSelect] drops it.  On such a name the
    fallback of [nameWithoutExt] would keep the whole name. *)
Example leading_dot_is_filtered :
  shouldSkipFile ".gif" = true
  /\ validFilesOf [mkFile ".gif" ".gif" [x89; x50; x4e; x47] true] = []
  /\ decide ".gif" ".gif" png 0 = mkDecision ".gif.png" ".gif.png" FIXED 1.
Proof. repeat split. Qed.

(** C3.  For every original path the pipeline can be given (its last
    segment passes the pre-filter [shouldSkipFile] of
    [handleFolderSelect], the only caller of [startProcessing]; dotfiles
    are outside the path policy) and every detected format other than
    UNKNOWN whose canonical extension does not match the current
    extension (with the jpeg/jpg synonym), [decide] answers FIXED; the
    new file name is the portion of the last segment before its last
    ['.'] (the whole segment if it has no ['.']), ['.'] and the detected
    format's canonical extension; the final path has the directory
    segments of the original path, verbatim and in order, followed by
    the new name.  A segment with a ['.'] is its stem, ['.'] and a
    ['.']-free rest, which fixes what "before the last ['.']" means. *)
Theorem decide_fixed_path (originalPath : string) (detected : MimeType)
        (n : nat) :
  shouldSkipFile (lastSegment originalPath) = false ->
  detected <> unknown ->
  currentExtension originalPath <> typeString detected ->
  ~ (currentExtension originalPath = "jpeg" /\ detected = jpg) ->
  let seg := lastSegment originalPath in
  let newName := (stemOf seg ++ "." ++ typeString detected)%string in
  let d := decide seg originalPath detected n in
  d = mkDecision newName (JS.join "/" (dirSegments originalPath ++ [newName]))
                 FIXED (S n)
  /\ d_status d = FIXED
  /\ d_finalPath d = JS.join "/" (dirSegments originalPath ++ [newName])
  /\ segments (d_finalPath d) = dirSegments originalPath ++ [newName]
  /\ dirSegments (d_finalPath d) = dirSegments originalPath
  /\ lastSegment (d_finalPath d) = newName
  /\ (contains "."%char seg = true ->
      seg = (stemOf seg ++ "." ++ afterLastDot seg)%string
      /\ contains "."%char (afterLastDot seg) = false)
  /\ (contains "."%char seg = false -> stemOf seg = seg).
Proof.
  intros Hskip Hu He Hj seg newName d.
  assert (Hstem : keptStem seg = stemOf seg)
    by (apply PathPolicy.keptStem_unskipped, Hskip).
  assert (Hd : d = mkDecision newName
                     (JS.join "/" (dirSegments originalPath ++ [newName]))
                     FIXED (S n)).
  { unfold d, newName, seg. rewrite PathPolicy.decide_spec.
    unfold extensionMatches.
    replace (MimeType_eqb detected unknown) with false
      by (symmetry; destruct detected; try reflexivity; congruence).
    apply String.eqb_neq in He. rewrite He. cbn [orb].
    fold seg. rewrite Hstem.
    destruct (currentExtension originalPath =? "jpeg")%string eqn:E;
      cbn [andb]; [|reflexivity].
    apply String.eqb_eq in E.
    destruct (MimeType_eqb detected jpg) eqn:Ed; [|reflexivity].
    apply PathPolicy.MimeType_eqb_eq in Ed. tauto. }
  assert (Hclean : contains "/"%char (stemOf seg) = false).
  { rewrite <- Hstem.
    apply PathPolicy.keptStem_clean, PathPolicy.lastSegment_clean. }
  assert (Hseg : segments (d_finalPath d)
                 = dirSegments originalPath ++ [newName]).
  { rewrite Hd. cbn [d_finalPath]. apply PathPolicy.renamed_segments, Hclean. }
  repeat match goal with |- _ /\ _ => split end.
  - exact Hd.
  - now rewrite Hd.
  - now rewrite Hd.
  - exact Hseg.
  - unfold dirSegments at 1. rewrite Hseg. apply removelast_last.
  - unfold lastSegment at 1. rewrite Hseg. apply last_last.
  - intros Hdot. unfold stemOf. rewrite Hdot.
    destruct (PolicyFacts.dot_decomposition seg Hdot)
      as (pre & post & Hsplit & Hpost & _ & Hb & Ha & _).
    rewrite Hb, Ha. split; assumption.
  - intros Hdot. unfold stemOf. now rewrite Hdot.
Qed.

Lemma decide_fixed_path_witness :
  shouldSkipFile (lastSegment "album/sub/pic.png") = false
  /\ d_finalPath (decide (lastSegment "album/sub/pic.png")
                         "album/sub/pic.png" gif 0) = "album/sub/pic.gif"
  /\ d_status (decide (lastSegment "album/sub/pic.png") "album/sub/pic.png"
                      gif 0) = FIXED
  /\ dirSegments "album/sub/pic.gif" = ["album"; "sub"].
Proof.
  assert (H0 : shouldSkipFile (lastSegment "album/sub/pic.png") = false)
    by reflexivity.
  assert (H1 : gif <> unknown) by discriminate.
  assert (H2 : currentExtension "album/sub/pic.png" <> typeString gif)
    by (vm_compute; discriminate).
  assert (H3 : ~ (currentExtension "album/sub/pic.png" = "jpeg" /\ gif = jpg))
    by (intros [_ H]; discriminate).
  destruct (decide_fixed_path "album/sub/pic.png" gif 0 H0 H1 H2 H3)
    as (Hd & _).
  rewrite Hd. cbn [d_finalPath d_status].
  repeat split.
Defined.

(** ** Batch pipeline *)

Example exampleBatch_run :
  let run := startProcessing 0 (fun _ => Some []) exampleBatch in
  map status (processedFiles run) = [UNCHANGED; FIXED; UNCHANGED]
  /\ map detectedType (processedFiles run) = [png; gif; unknown]
  /\ map fst (zip run) = ["a.png"; "b.gif"; "c.dat"]
  /\ map snd (zip run) = exampleBatch
  /\ stats run = mkStats 3 1 3 0
  /\ state run = COMPLETED.
Proof. vm_compute. repeat split. Qed.

(** C7.  After [k] of the [n] files: total is [n] (from the start, at
    [k = 0]), processed is [k], fixed is the number of FIXED outcomes so
    far, [fixed <= processed <= total]; no counter was larger at an
    earlier step; and the next iteration adds one to processed, adds one
    to fixed exactly when its outcome is FIXED, and keeps total.  The
    counters at the end of the run are those after [n] files. *)
Theorem counters_invariant (now : Z)
        (generateAsync : list (string * File) -> option (list byte))
        (files : list File) (k : nat) :
  (k <= List.length files)%nat ->
  let s := stats (stateAfter now files k) in
  total s = List.length files
  /\ processed s = k
  /\ fixed s = countFixed (processedFiles (stateAfter now files k))
  /\ processedFiles (stateAfter now files k) = map outcomeOf (firstn k files)
  /\ (fixed s <= processed s <= total s)%nat
  /\ (forall j, (j <= k)%nat ->
        (processed (stats (stateAfter now files j)) <= processed s)%nat
        /\ (fixed (stats (stateAfter now files j)) <= fixed s)%nat
        /\ total (stats (stateAfter now files j)) = total s)
  /\ (forall file, nth_error files k = Some file ->
        let s' := stats (stateAfter now files (S k)) in
        total s' = total s
        /\ processed s' = S (processed s)
        /\ fixed s' = (fixed s + if isFixed (status (outcomeOf file))
                                 then 1 else 0)%nat)
  /\ stats (startProcessing now generateAsync files)
     = stats (stateAfter now files (List.length files)).
Proof.
  intros Hk s.
  destruct (Pipeline.stateAfter_spec now files k Hk)
    as (Ht & Ho & _ & (Hp & Hf & Hc & Hl)).
  fold s in Ht, Hp, Hf.
  assert (Hfix : fixed s = countFixed (map outcomeOf (firstn k files)))
    by (rewrite Hf, Hc, Ho; reflexivity).
  splits.
  - exact Ht.
  - exact Hp.
  - now rewrite Hf, Hc.
  - exact Ho.
  - rewrite Hfix, Hp. pose proof (Pipeline.countFixed_le
                                     (map outcomeOf (firstn k files))) as Hle.
    rewrite length_map, length_firstn, Nat.min_l in Hle by exact Hk. exact Hle.
  - rewrite Hp, Ht. lia.
  - intros j Hj.
    destruct (Pipeline.stateAfter_spec now files j ltac:(lia))
      as (Ht' & Ho' & _ & (Hp' & Hf' & Hc' & _)).
    rewrite Hp', Hf', Hc', Ho', Ht', Hp, Hfix, Ht. splits; auto.
    replace (firstn j files) with (firstn j (firstn k files))
      by (rewrite firstn_firstn, Nat.min_l by exact Hj; reflexivity).
    rewrite <- (firstn_skipn j (firstn k files)) at 2.
    rewrite map_app, Pipeline.countFixed_app. lia.
  - intros file Hnth s'. unfold s'.
    rewrite (Pipeline.stateAfter_succ _ _ _ _ Hnth).
    destruct (Pipeline.iteration_spec k file (stateAfter now files k))
      as (_ & _ & Hfc & Hfx & Hpr & Htot & _).
    rewrite Htot, Hpr, Hfx, Hfc. fold s. rewrite Hp, Hf.
    splits; reflexivity.
  - rewrite Pipeline.stateAfter_all.
    apply (Pipeline.startProcessing_loop now generateAsync files).
Qed.

Lemma counters_invariant_witness :
  stats (stateAfter 0 exampleBatch 3) = mkStats 3 1 3 0
  /\ total (stats (stateAfter 0 exampleBatch 3)) = 3%nat
  /\ processed (stats (stateAfter 0 exampleBatch 3)) = 3%nat
  /\ fixed (stats (stateAfter 0 exampleBatch 3)) = 1%nat
  /\ stats (startProcessing 0 (fun _ => None) exampleBatch) = mkStats 3 1 3 0.
Proof.
  assert (Hk : (3 <= List.length exampleBatch)%nat) by (simpl; lia).
  destruct (counters_invariant 0 (fun _ => None) exampleBatch 3 Hk)
    as (Ht & Hp & Hf & _ & _ & _ & _ & Hend).
  rewrite Hend. cbn [List.length exampleBatch].
  split; [reflexivity|].
  split; [exact Ht|]. split; [exact Hp|]. split; [|reflexivity].
  rewrite Hf. reflexivity.
Defined.

(** C8.  The run appends exactly one outcome row and one archive entry
    per input file, both in input order; the entry of a file is its
    final path with the file itself, so with its full byte content. *)
Theorem one_outcome_and_entry_per_file (now : Z)
        (generateAsync : list (string * File) -> option (list byte))
        (files : list File) :
  let run := startProcessing now generateAsync files in
  processedFiles run = map outcomeOf files
  /\ zip run = map (fun file => (finalPathOf file, file)) files
  /\ List.length (processedFiles run) = List.length files
  /\ List.length (zip run) = List.length files
  /\ map blob (processedFiles run) = files
  /\ map originalPath (processedFiles run) = map relativePathOf files
  /\ map snd (zip run) = files
  /\ map (fun entry => content (snd entry)) (zip run) = map content files.
Proof.
  destruct (Pipeline.startProcessing_loop now generateAsync files)
    as (Ho & Hz & _).
  destruct (Pipeline.loop_spec files 0 (begin now files)) as (Ho' & Hz' & _).
  cbv zeta. rewrite Ho, Hz, Ho', Hz'. cbn [begin processedFiles zip app].
  splits; rewrite ?length_map, ?map_map; try reflexivity.
  - apply map_id.
  - apply map_id.
Qed.

(** C9.  Two runs over the same files, whatever the clock reads and
    whatever the archive assembler returns, produce the same outcome
    sequence and the same archive input: same paths, same contents, same
    order. *)
Theorem runs_agree (now1 now2 : Z)
        (generateAsync1 generateAsync2
         : list (string * File) -> option (list byte))
        (files : list File) :
  processedFiles (startProcessing now1 generateAsync1 files)
  = processedFiles (startProcessing now2 generateAsync2 files)
  /\ zip (startProcessing now1 generateAsync1 files)
     = zip (startProcessing now2 generateAsync2 files)
  /\ map fst (zip (startProcessing now1 generateAsync1 files))
     = map fst (zip (startProcessing now2 generateAsync2 files))
  /\ map (fun entry => content (snd entry))
         (zip (startProcessing now1 generateAsync1 files))
     = map (fun entry => content (snd entry))
           (zip (startProcessing now2 generateAsync2 files)).
Proof.
  destruct (Pipeline.startProcessing_loop now1 generateAsync1 files)
    as (Ho1 & Hz1 & _).
  destruct (Pipeline.startProcessing_loop now2 generateAsync2 files)
    as (Ho2 & Hz2 & _).
  destruct (Pipeline.loop_spec files 0 (begin now1 files)) as (Ha & Hb & _).
  destruct (Pipeline.loop_spec files 0 (begin now2 files)) as (Hc & Hd & _).
  rewrite Ho1, Hz1, Ho2, Hz2, Ha, Hb, Hc, Hd.
  repeat split.
Qed.

(** C10.  Every row of the outcome log, and every row shown in the
    recent-history list, has status FIXED or UNCHANGED; [decide] itself
    never answers SKIPPED. *)
Theorem status_never_skipped (now : Z)
        (generateAsync : list (string * File) -> option (list byte))
        (files : list File) :
  Forall (fun o => status o = FIXED \/ status o = UNCHANGED)
         (processedFiles (startProcessing now generateAsync files))
  /\ Forall (fun o => status o <> SKIPPED)
            (processedFiles (startProcessing now generateAsync files))
  /\ Forall (fun o => status o = FIXED \/ status o = UNCHANGED)
            (logs (startProcessing now generateAsync files))
  /\ (forall fileName relativePath realType n,
         d_status (decide fileName relativePath realType n) = FIXED
         \/ d_status (decide fileName relativePath realType n) = UNCHANGED).
Proof.
  destruct (Pipeline.startProcessing_loop now generateAsync files)
    as (Ho & _ & _ & Hl & _).
  destruct (Pipeline.loop_spec files 0 (begin now files)) as (Ho' & _).
  rewrite Ho, Hl, Ho'. cbn [begin processedFiles app].
  splits.
  - apply Forall_map, Forall_forall. intros f _. apply Pipeline.outcome_status.
  - apply Forall_map, Forall_forall. intros f _.
    destruct (Pipeline.outcome_status f) as [-> | ->]; discriminate.
  - apply Pipeline.loop_logs; [apply Pipeline.outcome_status|constructor].
  - intros fileName relativePath realType n. unfold decide.
    destruct (negb (MimeType_eqb realType unknown)); [|right; reflexivity].
    match goal with |- context [if ?c then _ else _] => destruct c end;
      [left|right]; reflexivity.
Qed.

(** C6.  When the prefix of one file of the batch cannot be read, the
    detector answers UNKNOWN for it, its outcome row is UNCHANGED, it is
    added to the archive under its original path, the files before and
    after it get the rows and entries they get on their own, every file
    is counted as processed, and the run ends in the error state only if
    the archive assembly fails. *)
Theorem read_failure_is_absorbed (now : Z)
        (generateAsync : list (string * File) -> option (list byte))
        (before after : list File) (file : File) :
  readable file = false ->
  let run := startProcessing now generateAsync (before ++ file :: after) in
  detectMimeType file = unknown
  /\ nth_error (processedFiles run) (List.length before)
     = Some (mkProcessedFile (name file) (name file) (relativePathOf file)
                             unknown UNCHANGED file)
  /\ nth_error (zip run) (List.length before)
     = Some (relativePathOf file, file)
  /\ firstn (List.length before) (processedFiles run) = map outcomeOf before
  /\ skipn (S (List.length before)) (processedFiles run) = map outcomeOf after
  /\ firstn (List.length before) (zip run) = map entryOf before
  /\ skipn (S (List.length before)) (zip run) = map entryOf after
  /\ processed (stats run) = List.length (before ++ file :: after)
  /\ (state run = ERROR -> generateAsync (zip run) = None).
Proof.
  intros Hread.
  assert (Hdet : detectMimeType file = unknown)
    by (unfold detectMimeType, readAsArrayBuffer; now rewrite Hread).
  assert (Hout : outcomeOf file
                 = mkProcessedFile (name file) (name file)
                     (relativePathOf file) unknown UNCHANGED file)
    by (unfold outcomeOf; rewrite Hdet; reflexivity).
  assert (Hent : entryOf file = (relativePathOf file, file))
    by (unfold entryOf, finalPathOf; rewrite Hdet; reflexivity).
  destruct (Pipeline.startProcessing_loop now generateAsync
              (before ++ file :: after)) as (Ho & Hz & Hs & _ & Hst).
  destruct (Pipeline.loop_spec (before ++ file :: after) 0
              (begin now (before ++ file :: after)))
    as (Ho' & Hz' & _ & _ & _ & Hc).
  destruct (Hc (Pipeline.begin_consistent _ _)) as (Hp & _).
  cbv zeta. rewrite Hs, Hp, Hst, Ho, Hz, Ho', Hz'.
  cbn [begin processedFiles zip app]. rewrite !map_app. cbn [map].
  rewrite Hout, Hent.
  assert (Hlo : List.length (map outcomeOf before) = List.length before)
    by apply length_map.
  assert (Hle : List.length (map entryOf before) = List.length before)
    by apply length_map.
  splits.
  - exact Hdet.
  - rewrite nth_error_app2 by lia. rewrite Hlo, Nat.sub_diag. reflexivity.
  - rewrite nth_error_app2 by lia. rewrite Hle, Nat.sub_diag. reflexivity.
  - rewrite <- Hlo at 1. rewrite firstn_app, Nat.sub_diag, firstn_all.
    cbn [firstn]. apply app_nil_r.
  - rewrite <- Hlo at 1. rewrite skipn_app, length_map.
    replace (S (List.length before) - List.length before)%nat with 1%nat by lia.
    rewrite skipn_all2 by (rewrite length_map; lia). reflexivity.
  - rewrite <- Hle at 1. rewrite firstn_app, Nat.sub_diag, firstn_all.
    cbn [firstn]. apply app_nil_r.
  - rewrite <- Hle at 1. rewrite skipn_app, length_map.
    replace (S (List.length before) - List.length before)%nat with 1%nat by lia.
    rewrite skipn_all2 by (rewrite length_map; lia). reflexivity.
  - reflexivity.
  - match goal with
    | |- context [generateAsync ?z] => destruct (generateAsync z)
    end; [intros E; discriminate E|reflexivity].
Qed.

Lemma read_failure_is_absorbed_witness :
  let broken := mkFile "b.jpg" "b.jpg" [x47; x49; x46; x38; x39; x61] false in
  let first := mkFile "a.jpg" "a.jpg" [x89; x50; x4e; x47] true in
  let third := mkFile "c.png" "c.png" [x47; x49; x46; x38] true in
  let run := startProcessing 0 (fun _ => Some []) [first; broken; third] in
  readable broken = false
  /\ map status (processedFiles run) = [FIXED; UNCHANGED; FIXED]
  /\ nth_error (zip run) 1 = Some ("b.jpg", broken)
  /\ skipn 2 (zip run) = [("c.gif", third)].
Proof.
  intros broken first third run.
  assert (H : readable broken = false) by reflexivity.
  destruct (read_failure_is_absorbed 0 (fun _ => Some []) [first] [third]
              broken H) as (_ & _ & Hz & _ & _ & _ & Hafter & _).
  split; [exact H|]. split; [reflexivity|].
  split; [exact Hz|]. exact Hafter.
Defined.

(** C2 as stated fails: [d/a.png] and [d/a.gif], both
    holding a GIF, have distinct relative paths and the same final path
    [d/a.gif]. *)
Lemma final_paths_collide :
  ~ (forall (now : Z)
            (generateAsync : list (string * File) -> option (list byte))
            (files : list File),
        NoDup (map relativePathOf files) ->
        NoDup (map fst (zip (startProcessing now generateAsync files)))).
Proof.
  intros H.
  specialize (H 0%Z (fun _ => Some [])
                [ mkFile "a.png" "d/a.png" [x47; x49; x46; x38; x39; x61] true;
                  mkFile "a.gif" "d/a.gif" [x47; x49; x46; x38; x39; x61] true ]).
  assert (Hin : NoDup ["d/a.png"; "d/a.gif"]).
  { repeat constructor; simpl; intuition discriminate. }
  specialize (H Hin). vm_compute in H.
  inversion H as [|? ? Hnot _]. apply Hnot. left. reflexivity.
Qed.

(** C2 (amended).  When every file's name is the last segment of its
    relative path and is not empty, and no two files have both the same
    directory segments and the same kept stem (the name up to its last
    ['.']; the whole name when that is empty), the final paths fed to
    the archive step are pairwise distinct; each of them has the
    directory segments and the kept stem of its input path. *)
Theorem final_paths_distinct (now : Z)
        (generateAsync : list (string * File) -> option (list byte))
        (files : list File) :
  Forall (fun file => name file = lastSegment (relativePathOf file)) files ->
  Forall (fun file => name file <> EmptyString) files ->
  NoDup (map (fun file => pathKey (relativePathOf file)) files) ->
  NoDup (map fst (zip (startProcessing now generateAsync files)))
  /\ map fst (zip (startProcessing now generateAsync files))
     = map finalPathOf files
  /\ Forall (fun file =>
               pathKey (finalPathOf file) = pathKey (relativePathOf file))
            files.
Proof.
  intros Hwf Hne Hkeys.
  assert (Hkey : Forall (fun file => pathKey (finalPathOf file)
                                     = pathKey (relativePathOf file)) files).
  { rewrite Forall_forall in *. intros file Hin.
    apply Pipeline.finalPath_key; auto. }
  assert (Hpaths : map fst (zip (startProcessing now generateAsync files))
                   = map finalPathOf files).
  { destruct (Pipeline.startProcessing_loop now generateAsync files)
      as (_ & Hz & _).
    destruct (Pipeline.loop_spec files 0 (begin now files)) as (_ & Hz' & _).
    rewrite Hz, Hz'. cbn [begin zip app]. rewrite map_map. reflexivity. }
  splits; [|exact Hpaths|exact Hkey].
  rewrite Hpaths.
  apply (Pipeline.NoDup_map_through
           finalPathOf (fun file => pathKey (relativePathOf file)));
    [|exact Hkeys].
  intros x y Hx Hy E. rewrite Forall_forall in Hkey.
  rewrite <- (Hkey x Hx), <- (Hkey y Hy), E. reflexivity.
Qed.

Lemma final_paths_distinct_witness :
  let files :=
    [ mkFile "a.png" "d/a.png" [x47; x49; x46; x38; x39; x61] true;
      mkFile "b.gif" "d/b.gif" [x47; x49; x46; x38; x39; x61] true;
      mkFile "a.png" "e/a.png" [x47; x49; x46; x38; x39; x61] true ] in
  NoDup (map (fun file => pathKey (relativePathOf file)) files)
  /\ map fst (zip (startProcessing 0 (fun _ => Some []) files))
     = ["d/a.gif"; "d/b.gif"; "e/a.gif"]
  /\ NoDup (map fst (zip (startProcessing 0 (fun _ => Some []) files))).
Proof.
  intros files.
  assert (Hwf : Forall (fun file => name file = lastSegment (relativePathOf file))
                       files)
    by (repeat constructor).
  assert (Hne : Forall (fun file => name file <> EmptyString) files)
    by (repeat constructor; discriminate).
  assert (Hkeys : NoDup (map (fun file => pathKey (relativePathOf file)) files)).
  { vm_compute. repeat constructor; simpl; intuition discriminate. }
  destruct (final_paths_distinct 0 (fun _ => Some []) files Hwf Hne Hkeys)
    as (Hnd & _).
  split; [exact Hkeys|]. split; [reflexivity|exact Hnd].
Defined.

(** * Further properties *)

(** ** [getExtension] *)

Module ExtensionFacts.
Import JSFacts PolicyFacts.

Lemma lowerChar_dot c :
  Ascii.eqb (JS.lowerChar c) "."%char = Ascii.eqb c "."%char.
Proof. destruct c as [[] [] [] [] [] [] [] []]; reflexivity. Qed.




Lemma contains_mapString f s :
  (forall c, Ascii.eqb (f c) "."%char = Ascii.eqb c "."%char) ->
  contains "."%char (JS.mapString f s) = contains "."%char s.
Proof.
  intros H. induction s as [|a s IH]; simpl; [reflexivity|].
  now rewrite H, IH.
Qed.




Lemma toLowerCase_empty s :
  JS.toLowerCase s = EmptyString <-> s = EmptyString.
Proof.
  unfold JS.toLowerCase. destruct s; simpl; split; intros H;
    try discriminate H; reflexivity.
Qed.

(** The decomposition around the last ['.'] is the only one whose rest
    has no ['.']. *)
Lemma afterLastDot_app stem ext :
  contains "."%char ext = false ->
  afterLastDot (stem ++ "." ++ ext) = ext
  /\ beforeLastDot (stem ++ "." ++ ext) = stem.
Proof.
  intros Hext.
  assert (Hdot : contains "."%char (stem ++ "." ++ ext) = true).
  { rewrite contains_app. simpl. apply orb_true_r. }
  destruct (dot_decomposition _ Hdot)
    as (pre & post & Hseg & _ & Hidx & Hb & Ha & _).
  change (stem ++ "." ++ ext)%string
    with (stem ++ String "."%char ext)%string in Hidx.
  rewrite (lastIndexOf_app _ _ _ Hext) in Hidx.
  apply Nat2Z.inj in Hidx.
  destruct (DetectorFacts.app_inv_same_length stem pre ("." ++ ext)%string
              ("." ++ post)%string Hidx Hseg) as [Hs He].
  injection He as He. rewrite Ha, Hb, Hs, He. split; reflexivity.
Qed.

Lemma typeString_lower t : JS.toLowerCase (typeString t) = typeString t.
Proof. destruct t; reflexivity. Qed.

Lemma getExtension_app stem ext :
  contains "."%char ext = false ->
  getExtension (stem ++ "." ++ ext) = JS.toLowerCase ext.
Proof.
  intros Hext. rewrite getExtension_spec.
  assert (Hdot : contains "."%char (stem ++ "." ++ ext) = true).
  { rewrite contains_app. simpl. apply orb_true_r. }
  rewrite Hdot. now rewrite (proj1 (afterLastDot_app stem ext Hext)).
Qed.

End ExtensionFacts.

(** X1.  The extension [getExtension] returns never contains a ['.']. *)
Theorem getExtension_has_no_dot (filename : string) :
  contains "."%char (getExtension filename) = false.
Proof.
  rewrite PolicyFacts.getExtension_spec.
  destruct (contains "."%char filename) eqn:H; [|reflexivity].
  destruct (PolicyFacts.dot_decomposition filename H)
    as (pre & post & _ & Hpost & _ & _ & Ha & _).
  rewrite Ha. unfold JS.toLowerCase.
  rewrite ExtensionFacts.contains_mapString; [exact Hpost|].
  apply ExtensionFacts.lowerChar_dot.
Qed.



(** X3.  [getExtension] returns the empty string exactly for a name
    without ['.'] and for a name that ends with ['.']. *)
Theorem getExtension_empty_iff (filename : string) :
  getExtension filename = EmptyString
  <-> (contains "."%char filename = false
       \/ exists stem, filename = (stem ++ ".")%string).
Proof.
  rewrite PolicyFacts.getExtension_spec.
  destruct (contains "."%char filename) eqn:H.
  - destruct (PolicyFacts.dot_decomposition filename H)
      as (pre & post & Hseg & Hpost & _ & _ & Ha & _).
    rewrite Ha, ExtensionFacts.toLowerCase_empty. split.
    + intros ->. right. exists pre. exact Hseg.
    + intros [Hno | [stem Hstem]]; [discriminate|].
      assert (E : afterLastDot filename = EmptyString).
      { rewrite Hstem.
        apply (proj1 (ExtensionFacts.afterLastDot_app stem EmptyString
                        eq_refl)). }
      congruence.
  - split; [left; reflexivity|reflexivity].
Qed.

(** X4.  A name built as stem, ['.'] and a ['.']-free extension has that
    extension, lower-cased; in particular a name ending in ['.'] and a
    format's extension has exactly that extension. *)
Theorem getExtension_of_built_name (stem ext : string) :
  contains "."%char ext = false ->
  getExtension (stem ++ "." ++ ext) = JS.toLowerCase ext.
Proof. apply ExtensionFacts.getExtension_app. Qed.

Lemma getExtension_of_built_name_witness :
  contains "."%char "PNG" = false
  /\ getExtension ("archive.tar" ++ "." ++ "PNG") = "png".
Proof.
  assert (H : contains "."%char "PNG" = false) by reflexivity.
  split; [exact H|].
  rewrite (getExtension_of_built_name "archive.tar" "PNG" H). reflexivity.
Defined.

(** ** The renaming decision *)

Module DecideFacts.
Import JSFacts PolicyFacts ExtensionFacts.

(** [decide] for an arbitrary file name, by its two outcomes. *)
Lemma decide_cases fileName relativePath realType n :
  let newName :=
    (keptStem fileName ++ "." ++ typeString realType)%string in
  (decide fileName relativePath realType n
   = mkDecision fileName relativePath UNCHANGED n
   /\ (realType = unknown
       \/ getExtension fileName = typeString realType
       \/ (getExtension fileName = "jpeg" /\ realType = jpg)))
  \/ (decide fileName relativePath realType n
      = mkDecision newName
          (JS.join "/" (dirSegments relativePath ++ [newName])) FIXED (S n)
      /\ realType <> unknown
      /\ getExtension fileName <> typeString realType
      /\ ~ (getExtension fileName = "jpeg" /\ realType = jpg)).
Proof.
  unfold decide. rewrite PathPolicy.match_tests, nameWithoutExt_spec.
  destruct (MimeType_eqb realType unknown) eqn:Hu; cbn [negb].
  - left. apply PathPolicy.MimeType_eqb_eq in Hu. auto.
  - destruct (getExtension fileName =? typeString realType)%string eqn:He;
      cbn [orb negb].
    + left. apply String.eqb_eq in He. auto.
    + destruct ((getExtension fileName =? "jpeg")%string
                && MimeType_eqb realType jpg) eqn:Hj; cbn [negb].
      * left. apply andb_true_iff in Hj as [Hj Ht].
        apply String.eqb_eq in Hj. apply PathPolicy.MimeType_eqb_eq in Ht.
        auto.
      * right. cbv zeta. rewrite assignAt_last by apply split_nonempty.
        apply String.eqb_neq in He. splits; auto.
        -- intros ->. discriminate Hu.
        -- intros [Hx Hy]. apply andb_false_iff in Hj as [Hj | Hj].
           ++ apply String.eqb_neq in Hj. contradiction.
           ++ subst realType. discriminate Hj.
Qed.

Lemma built_extension stem t :
  getExtension (stem ++ "." ++ typeString t) = typeString t.
Proof.
  rewrite getExtension_app by (apply PathPolicy.typeString_clean; auto).
  apply typeString_lower.
Qed.

Lemma final_extension fileName relativePath realType n :
  realType <> unknown ->
  getExtension (d_newName (decide fileName relativePath realType n))
  = typeString realType
  \/ (getExtension (d_newName (decide fileName relativePath realType n))
      = "jpeg" /\ realType = jpg).
Proof.
  intros Hu.
  destruct (decide_cases fileName relativePath realType n)
    as [[-> H] | [-> _]]; cbn [d_newName].
  - destruct H as [H | [H | H]]; [contradiction|left; exact H|right; exact H].
  - left. apply built_extension.
Qed.

Lemma decide_again fileName relativePath realType n m :
  decide (d_newName (decide fileName relativePath realType n))
         (d_finalPath (decide fileName relativePath realType n)) realType m
  = mkDecision (d_newName (decide fileName relativePath realType n))
               (d_finalPath (decide fileName relativePath realType n))
               UNCHANGED m.
Proof.
  set (d := decide fileName relativePath realType n).
  destruct (decide_cases (d_newName d) (d_finalPath d) realType m)
    as [[E _] | (_ & Hu & Hne & Hnj)]; [exact E|].
  destruct (final_extension fileName relativePath realType n Hu)
    as [H | H]; fold d in H; [contradiction|tauto].
Qed.

End DecideFacts.

(** X5.  Whenever the content is identified, the name [decide] leaves
    the file with has the detected format's extension, or "jpeg" for
    a JPEG: after the decision, name and content agree. *)
Theorem final_extension_matches (fileName relativePath : string)
        (realType : MimeType) (n : nat) :
  realType <> unknown ->
  getExtension (d_newName (decide fileName relativePath realType n))
  = typeString realType
  \/ (getExtension (d_newName (decide fileName relativePath realType n))
      = "jpeg" /\ realType = jpg).
Proof. apply DecideFacts.final_extension. Qed.

Lemma final_extension_matches_witness :
  webp <> unknown
  /\ d_newName (decide "Holiday.JPEG" "2024/Holiday.JPEG" webp 0)
     = "Holiday.webp"
  /\ getExtension (d_newName (decide "Holiday.JPEG" "2024/Holiday.JPEG" webp 0))
     = "webp".
Proof.
  assert (H : webp <> unknown) by discriminate.
  destruct (final_extension_matches "Holiday.JPEG" "2024/Holiday.JPEG" webp 0 H)
    as [E | [_ E]]; [|discriminate E].
  split; [exact H|]. split; [reflexivity|exact E].
Defined.

(** X6.  [decide] is idempotent: deciding again on the name and path it
    produced, for the same detected format, answers UNCHANGED and keeps
    both, and does not count another fix. *)
Theorem decide_idempotent (fileName relativePath : string)
        (realType : MimeType) (n m : nat) :
  decide (d_newName (decide fileName relativePath realType n))
         (d_finalPath (decide fileName relativePath realType n)) realType m
  = mkDecision (d_newName (decide fileName relativePath realType n))
               (d_finalPath (decide fileName relativePath realType n))
               UNCHANGED m.
Proof. apply DecideFacts.decide_again. Qed.

(** X7.  For a file name without ['/'], whatever the relative path is
    (it need not end with that name), the final path has the directory
    segments of the relative path; when the file is FIXED its last
    segment is the new name, built from the file name and not from the
    path's last segment; when it is UNCHANGED path and name are kept. *)
Theorem decide_keeps_directories (fileName relativePath : string)
        (realType : MimeType) (n : nat) :
  contains "/"%char fileName = false ->
  dirSegments (d_finalPath (decide fileName relativePath realType n))
  = dirSegments relativePath
  /\ (d_status (decide fileName relativePath realType n) = FIXED ->
      lastSegment (d_finalPath (decide fileName relativePath realType n))
      = (keptStem fileName ++ "." ++ typeString realType)%string
      /\ d_newName (decide fileName relativePath realType n)
         = (keptStem fileName ++ "." ++ typeString realType)%string)
  /\ (d_status (decide fileName relativePath realType n) = UNCHANGED ->
      d_finalPath (decide fileName relativePath realType n) = relativePath
      /\ d_newName (decide fileName relativePath realType n) = fileName).
Proof.
  intros Hclean.
  pose proof (PathPolicy.keptStem_clean fileName Hclean) as Hstem.
  destruct (DecideFacts.decide_cases fileName relativePath realType n)
    as [[-> _] | [-> _]]; cbn [d_finalPath d_status d_newName]; splits.
  - reflexivity.
  - discriminate.
  - intros _. split; reflexivity.
  - apply PathPolicy.renamed_dirSegments, Hstem.
  - intros _. split; [|reflexivity].
    apply PathPolicy.renamed_lastSegment, Hstem.
  - discriminate.
Qed.

Lemma decide_keeps_directories_witness :
  contains "/"%char "scan.bmp" = false
  /\ d_finalPath (decide "scan.bmp" "in/2024/other.tif" png 0)
     = "in/2024/scan.png"
  /\ dirSegments "in/2024/scan.png" = dirSegments "in/2024/other.tif".
Proof.
  assert (H : contains "/"%char "scan.bmp" = false) by reflexivity.
  destruct (decide_keeps_directories "scan.bmp" "in/2024/other.tif" png 0 H)
    as (Hdirs & _).
  split; [exact H|]. split; [reflexivity|exact Hdirs].
Defined.

(** X22.  A FIXED decision is a real rename: when the file name is the
    last segment of the relative path, the status is FIXED exactly when
    the new name differs from the file name, and exactly when the final
    path differs from the relative path. *)
Theorem fixed_means_renamed (fileName relativePath : string)
        (realType : MimeType) (n : nat) :
  fileName = lastSegment relativePath ->
  (d_status (decide fileName relativePath realType n) = FIXED
   <-> d_newName (decide fileName relativePath realType n) <> fileName)
  /\ (d_status (decide fileName relativePath realType n) = FIXED
      <-> d_finalPath (decide fileName relativePath realType n)
          <> relativePath).
Proof.
  intros Hwf.
  assert (Hclean : contains "/"%char (keptStem fileName) = false).
  { apply PathPolicy.keptStem_clean. rewrite Hwf.
    apply PathPolicy.lastSegment_clean. }
  destruct (DecideFacts.decide_cases fileName relativePath realType n)
    as [[-> _] | (-> & _ & Hne & _)];
    cbn [d_status d_newName d_finalPath].
  - split; (split; [discriminate|intros H; contradiction H; reflexivity]).
  - assert (Hname : (keptStem fileName ++ "." ++ typeString realType)%string
                    <> fileName).
    { intros E. apply Hne. rewrite <- E at 1.
      apply DecideFacts.built_extension. }
    split; (split; [intros _|reflexivity]); [exact Hname|].
    intros E. apply Hname.
    rewrite Hwf at 2. rewrite <- E.
    symmetry. apply PathPolicy.renamed_lastSegment, Hclean.
Qed.

Lemma fixed_means_renamed_witness :
  "b.jpg" = lastSegment "set/b.jpg"
  /\ d_status (decide "b.jpg" "set/b.jpg" gif 4) = FIXED
  /\ d_finalPath (decide "b.jpg" "set/b.jpg" gif 4) <> "set/b.jpg".
Proof.
  assert (H : "b.jpg" = lastSegment "set/b.jpg") by reflexivity.
  destruct (fixed_means_renamed "b.jpg" "set/b.jpg" gif 4 H) as (_ & Hpath).
  split; [exact H|]. split; [reflexivity|].
  apply Hpath. reflexivity.
Defined.

(** ** The detector *)

Module DetectorMore.
Import JSFacts DetectorFacts.

Lemma byteHex_digits x :
  String.length (byteHex x) = if (Byte.to_N x <? 16)%N then 1%nat else 2%nat.
Proof. destruct x; vm_compute; reflexivity. Qed.

Lemma twoDigits_of_large l :
  Forall (fun x => (16 <= Byte.to_N x)%N) l -> twoDigits l.
Proof.
  intros H. induction H as [|x l Hx _ IH]; constructor; [|exact IH].
  rewrite byteHex_digits.
  destruct (Byte.to_N x <? 16)%N eqn:E; [|reflexivity].
  apply N.ltb_lt in E. lia.
Qed.

Lemma prefix_app_inv p : forall x y,
  prefix p (x ++ y) = true -> String.length p = String.length x -> p = x.
Proof.
  induction p as [|a p IH]; intros [|c x] y H Hl; simpl in *;
    try discriminate; [reflexivity|].
  destruct (ascii_dec a c); [|discriminate]. subst.
  f_equal. apply (IH x y); [exact H|lia].
Qed.

(** With two digits per byte the JPEG test is exact as well. *)
Lemma jpeg_test_exact (l : list byte) :
  twoDigits l ->
  prefix "FFD8FF" (hexCat l) = true -> firstn 3 l = JPEG_MARKER.
Proof.
  intros Hl Hp.
  assert (Hlen : String.length (hexCat l) = (2 * List.length l)%nat).
  { clear Hp. induction Hl as [|x m Hx _ IH]; [reflexivity|].
    simpl. rewrite strlen_app, Hx, IH. lia. }
  pose proof (prefix_length _ _ Hp) as H6. rewrite Hlen in H6.
  clear Hlen.
  destruct l as [|a [|c [|d rest]]]; try (simpl in H6; lia).
  change (a :: c :: d :: rest) with ([a; c; d] ++ rest) in Hp, Hl.
  rewrite hexCat_app in Hp. apply Forall_app in Hl as [Hl3 _].
  apply prefix_app_inv in Hp.
  - cbn [firstn]. apply hexCat_inj; [exact Hl3|repeat constructor|].
    symmetry. exact Hp.
  - assert (H3 : String.length (hexCat [a; c; d]) = 6%nat).
    { inversion Hl3 as [|? ? Ha Hl2]; subst.
      inversion Hl2 as [|? ? Hc Hl1]; subst.
      inversion Hl1 as [|? ? Hd _]; subst.
      simpl. rewrite !strlen_app, Ha, Hc, Hd. reflexivity. }
    rewrite H3. reflexivity.
Qed.

Lemma detect_firstn_12 buf : detect (firstn 12 buf) = detect buf.
Proof.
  unfold detect, onloadend. cbv zeta.
  rewrite firstn_firstn. change (Nat.min 4 12) with 4%nat.
  rewrite length_firstn.
  replace (12 <=? Nat.min 12 (List.length buf))%nat
    with (12 <=? List.length buf)%nat
    by (destruct (Nat.leb_spec 12 (List.length buf));
        [rewrite Nat.min_l by lia; reflexivity
        |rewrite Nat.min_r by lia; symmetry; apply Nat.leb_gt; lia]).
  rewrite (firstn_skipn_comm 4 8 buf).
  rewrite (firstn_skipn_comm 4 8 (firstn 12 buf)).
  rewrite firstn_firstn. reflexivity.
Qed.

Lemma short_header_not_jpeg buf :
  (List.length buf <= 2)%nat ->
  JS.startsWith (headerOf (firstn 4 buf)) "FFD8FF" = false.
Proof.
  intros H. unfold JS.startsWith. rewrite headerOf_hexCat.
  destruct (prefix "FFD8FF" (hexCat (firstn 4 buf))) eqn:P; [|reflexivity].
  apply prefix_length in P.
  change (String.length "FFD8FF") with 6%nat in P.
  pose proof (hexCat_length (firstn 4 buf)) as Hl.
  rewrite length_firstn in Hl.
  assert (Nat.min 4 (List.length buf) <= 2)%nat by (apply Nat.min_le_iff; auto).
  lia.
Qed.

Lemma riff_excludes buf :
  bytes_eqb (bytesAt buf 0 4) RIFF_MARKER = true ->
  bytes_eqb (bytesAt buf 0 4) PNG_MARKER = false
  /\ JS.startsWith (headerOf (firstn 4 buf)) "FFD8FF" = false
  /\ bytes_eqb (bytesAt buf 0 4) GIF_MARKER = false.
Proof.
  intros H. apply bytes_eqb_eq in H. unfold bytesAt in *.
  cbn [skipn] in *. rewrite H. repeat split.
Qed.

Lemma gif_excludes buf :
  bytes_eqb (bytesAt buf 0 4) GIF_MARKER = true ->
  bytes_eqb (bytesAt buf 0 4) PNG_MARKER = false
  /\ JS.startsWith (headerOf (firstn 4 buf)) "FFD8FF" = false.
Proof.
  intros H. apply bytes_eqb_eq in H. unfold bytesAt in *.
  cbn [skipn] in *. rewrite H. repeat split.
Qed.

End DetectorMore.

(** X8.  The detector answers PNG exactly for the buffers whose first
    four bytes are 89 50 4E 47. *)
Theorem detect_png_iff (buf : list byte) :
  detect buf = png <-> bytesAt buf 0 4 = PNG_MARKER.
Proof.
  rewrite DetectorFacts.detect_tests, <- DetectorFacts.bytes_eqb_eq.
  destruct (bytes_eqb (bytesAt buf 0 4) PNG_MARKER); [tauto|].
  destruct (JS.startsWith _ _); [split; discriminate|].
  destruct (bytes_eqb (bytesAt buf 0 4) GIF_MARKER); [split; discriminate|].
  destruct (_ && _ && _); split; discriminate.
Qed.

(** X9.  The detector answers GIF exactly for the buffers whose first
    four bytes are 47 49 46 38. *)
Theorem detect_gif_iff (buf : list byte) :
  detect buf = gif <-> bytesAt buf 0 4 = GIF_MARKER.
Proof.
  rewrite DetectorFacts.detect_tests, <- DetectorFacts.bytes_eqb_eq.
  destruct (bytes_eqb (bytesAt buf 0 4) GIF_MARKER) eqn:G.
  - destruct (DetectorMore.gif_excludes buf G) as (-> & ->). tauto.
  - destruct (bytes_eqb (bytesAt buf 0 4) PNG_MARKER); [split; discriminate|].
    destruct (JS.startsWith _ _); [split; discriminate|].
    destruct (_ && _ && _); split; discriminate.
Qed.

(** X10.  The detector answers WEBP exactly for the buffers of at least
    12 bytes whose bytes 0-3 are "RIFF" and bytes 8-11 are "WEBP". *)
Theorem detect_webp_iff (buf : list byte) :
  detect buf = webp
  <-> ((12 <= List.length buf)%nat
       /\ bytesAt buf 0 4 = RIFF_MARKER
       /\ bytesAt buf 8 4 = WEBP_TAG).
Proof.
  rewrite DetectorFacts.detect_tests, <- !DetectorFacts.bytes_eqb_eq.
  rewrite <- Nat.leb_le.
  destruct (bytes_eqb (bytesAt buf 0 4) RIFF_MARKER) eqn:R.
  - destruct (DetectorMore.riff_excludes buf R) as (-> & -> & ->).
    destruct (12 <=? List.length buf)%nat,
             (bytes_eqb (bytesAt buf 8 4) WEBP_TAG); cbn;
      intuition discriminate.
  - rewrite andb_false_r. cbn [andb].
    destruct (bytes_eqb (bytesAt buf 0 4) PNG_MARKER);
      [intuition discriminate|].
    destruct (JS.startsWith _ _); [intuition discriminate|].
    destruct (bytes_eqb (bytesAt buf 0 4) GIF_MARKER); intuition discriminate.
Qed.

(** X11.  Every buffer that starts with FF D8 FF is classified as
    JPEG. *)
Theorem detect_jpeg_complete (buf : list byte) :
  bytesAt buf 0 3 = JPEG_MARKER -> detect buf = jpg.
Proof.
  intros H. rewrite DetectorFacts.detect_tests.
  destruct (bytes_eqb (bytesAt buf 0 4) PNG_MARKER) eqn:P.
  - apply DetectorFacts.bytes_eqb_eq in P. unfold bytesAt in *.
    cbn [skipn] in *.
    assert (E : firstn 3 (firstn 4 buf) = firstn 3 buf)
      by (rewrite firstn_firstn; reflexivity).
    rewrite P, H in E. discriminate E.
  - apply DetectorFacts.bytes_eqb_eq in H.
    now rewrite (DetectorFacts.jpeg_test_complete buf H).
Qed.

Lemma detect_jpeg_complete_witness :
  bytesAt [xff; xd8; xff; xdb; x00; x43] 0 3 = JPEG_MARKER
  /\ detect [xff; xd8; xff; xdb; x00; x43] = jpg.
Proof.
  assert (H : bytesAt [xff; xd8; xff; xdb; x00; x43] 0 3 = JPEG_MARKER)
    by reflexivity.
  split; [exact H|]. exact (detect_jpeg_complete _ H).
Defined.

(** X12.  A buffer of at most two bytes, the empty one included, is
    always UNKNOWN. *)
Theorem detect_short_buffer (buf : list byte) :
  (List.length buf <= 2)%nat -> detect buf = unknown.
Proof.
  intros H. rewrite DetectorFacts.detect_tests.
  rewrite (DetectorMore.short_header_not_jpeg buf H).
  assert (Hshort : forall marker, List.length marker = 4%nat ->
                     bytes_eqb (bytesAt buf 0 4) marker = false).
  { intros marker Hm.
    destruct (bytes_eqb (bytesAt buf 0 4) marker) eqn:E; [|reflexivity].
    apply DetectorFacts.bytes_eqb_eq in E.
    apply (f_equal (@List.length byte)) in E.
    unfold bytesAt in E. cbn [skipn] in E. rewrite length_firstn in E.
    assert (Nat.min 4 (List.length buf) <= 2)%nat
      by (apply Nat.min_le_iff; auto).
    lia. }
  rewrite !Hshort by reflexivity.
  replace (12 <=? List.length buf)%nat with false
    by (symmetry; apply Nat.leb_gt; lia).
  reflexivity.
Qed.

Lemma detect_short_buffer_witness :
  (List.length [xff; xd8] <= 2)%nat /\ detect [xff; xd8] = unknown.
Proof.
  assert (H : (List.length [xff; xd8] <= 2)%nat) by (simpl; lia).
  split; [exact H|]. exact (detect_short_buffer _ H).
Defined.

(** X13.  Reading only the first 12 bytes loses nothing: a readable file
    gets the verdict its whole content would get, an unreadable one
    gets UNKNOWN. *)
Theorem detectMimeType_whole_content (file : File) :
  detectMimeType file
  = if readable file then detect (content file) else unknown.
Proof.
  unfold detectMimeType, readAsArrayBuffer, blobSlice.
  destruct (readable file); [|reflexivity].
  apply DetectorMore.detect_firstn_12.
Qed.

(** X14.  On a buffer whose first four bytes are all at least 0x10 the
    detector follows the specification's rules: a wrong JPEG verdict
    needs a byte below 0x10 among the first four. *)
Theorem detect_follows_rules (buf : list byte) :
  Forall (fun x => (16 <= Byte.to_N x)%N) (firstn 4 buf) ->
  detect buf = spec_detect buf.
Proof.
  intros Hlarge.
  destruct (DetectorFacts.detect_differs_only_on_jpeg buf)
    as [E | (Hj & _ & Hne)]; [exact E|].
  exfalso. apply Hne.
  rewrite DetectorFacts.detect_tests in Hj.
  destruct (bytes_eqb (bytesAt buf 0 4) PNG_MARKER); [discriminate Hj|].
  destruct (JS.startsWith (headerOf (firstn 4 buf)) "FFD8FF") eqn:T.
  - unfold JS.startsWith in T. rewrite DetectorFacts.headerOf_hexCat in T.
    apply DetectorMore.jpeg_test_exact in T;
      [|apply DetectorMore.twoDigits_of_large, Hlarge].
    rewrite firstn_firstn in T. exact T.
  - destruct (bytes_eqb (bytesAt buf 0 4) GIF_MARKER); [discriminate Hj|].
    destruct (_ && _ && _); discriminate Hj.
Qed.

Lemma detect_follows_rules_witness :
  Forall (fun x => (16 <= Byte.to_N x)%N) (firstn 4 [xff; xd8; x1f; xf0; x00])
  /\ detect [xff; xd8; x1f; xf0; x00] = unknown.
Proof.
  assert (H : Forall (fun x => (16 <= Byte.to_N x)%N)
                     (firstn 4 [xff; xd8; x1f; xf0; x00]))
    by (repeat constructor; vm_compute; discriminate).
  split; [exact H|].
  rewrite (detect_follows_rules _ H). reflexivity.
Defined.

(** X15.  The digits [b.toString(16).toUpperCase()] gives for a byte
    read back as that byte, so distinct bytes have distinct digits; a
    byte below 16 has one digit and any other byte two: there is no
    zero padding. *)
Theorem byteHex_digits_of_byte (x y : byte) :
  hexValue (byteHex x) 0 = Byte.to_N x
  /\ String.length (byteHex x)
     = (if (Byte.to_N x <? 16)%N then 1%nat else 2%nat)
  /\ (byteHex x = byteHex y <-> x = y).
Proof.
  splits.
  - apply DetectorFacts.byteHex_value.
  - apply DetectorMore.byteHex_digits.
  - split; [apply DetectorFacts.byteHex_inj|intros ->; reflexivity].
Qed.

(** ** The run and the handlers around it *)

Module RunFacts.
Import JSFacts.

Lemma firstn_window (o : ProcessedFile) (l : list ProcessedFile) :
  firstn 500 (o :: firstn 500 l) = firstn 500 (o :: l).
Proof.
  change 500%nat with (S 499) at 1 3. rewrite !firstn_cons.
  rewrite firstn_firstn. reflexivity.
Qed.

Lemma loop_logs_window files : forall i st,
  logs st = firstn 500 (rev (processedFiles st)) ->
  logs (loop i files st)
  = firstn 500 (rev (processedFiles (loop i files st))).
Proof.
  induction files as [|f files IH]; intros i st H; [exact H|].
  cbn [loop]. apply IH.
  destruct (Pipeline.iteration_spec i f st)
    as (Ho & _ & _ & _ & _ & _ & _ & _ & Hl).
  rewrite Hl, Ho, rev_app_distr, H. cbn [rev app].
  apply firstn_window.
Qed.

Lemma run_outcomes now generateAsync files :
  processedFiles (startProcessing now generateAsync files)
  = map outcomeOf files
  /\ zip (startProcessing now generateAsync files) = map entryOf files
  /\ stats (startProcessing now generateAsync files)
     = mkStats (List.length files) (countFixed (map outcomeOf files))
               (List.length files) now.
Proof.
  destruct (Pipeline.startProcessing_loop now generateAsync files)
    as (Ho & Hz & Hs & _).
  destruct (Pipeline.loop_spec files 0 (begin now files))
    as (Ho' & Hz' & Ht & Hst & _ & Hc).
  destruct (Hc (Pipeline.begin_consistent now files)) as (Hp & Hf & Hfc & _).
  rewrite Ho, Hz, Hs, Ho', Hz'. cbn [begin processedFiles zip app].
  splits; try reflexivity.
  destruct (stats (loop 0 files (begin now files))) as [t fx pr stt] eqn:E.
  cbn [total fixed processed startTime] in *.
  rewrite Ho' in Hfc. cbn [begin processedFiles app] in Hfc.
  cbn [begin stats total startTime] in Ht, Hst.
  cbn [Nat.add] in Hp. subst t pr stt. f_equal. congruence.
Qed.

Lemma loop_keeps files : forall i st,
  errorMsg (loop i files st) = errorMsg st
  /\ zipBlob (loop i files st) = zipBlob st.
Proof.
  induction files as [|f files IH]; intros i st; [split; reflexivity|].
  cbn [loop]. destruct (IH (S i) (iteration i f st)) as (-> & ->).
  split; reflexivity.
Qed.

Lemma all_skipped files :
  Forall (fun f => shouldSkipFile (name f) = true) files ->
  validFilesOf files = [].
Proof.
  intros H. unfold validFilesOf.
  induction H as [|f l Hf _ IH]; [reflexivity|].
  cbn [filter]. now rewrite Hf, IH.
Qed.

Lemma join_last_empty (l : list string) seg :
  JS.join "/" (l ++ [seg]) = EmptyString -> seg = EmptyString.
Proof.
  unfold JS.join. induction l as [|x l IH]; [trivial|].
  cbn [app]. destruct (l ++ [seg]) as [|y r] eqn:E.
  - destruct l; discriminate E.
  - rewrite concat_cons2. destruct x; discriminate.
Qed.

(** The file a run outputs is its own relative path and keeps content
    and verdict. *)
Lemma archivedFile_path file :
  relativePathOf (archivedFile file) = finalPathOf file
  /\ name (archivedFile file) = newName (outcomeOf file)
  /\ detectMimeType (archivedFile file) = detectMimeType file.
Proof.
  splits; try reflexivity.
  unfold relativePathOf, archivedFile. cbn [webkitRelativePath name].
  destruct (finalPathOf file) eqn:E; [|reflexivity].
  cbn [JS.orElse]. unfold finalPathOf, outcomeOf in *. cbn [newName].
  destruct (DecideFacts.decide_cases (name file) (relativePathOf file)
              (detectMimeType file) 0) as [[Hd _] | [Hd _]];
    rewrite Hd in *; cbn [d_finalPath d_newName] in *.
  - unfold relativePathOf in E.
    destruct (webkitRelativePath file); [exact E|discriminate E].
  - apply join_last_empty in E. destruct (keptStem (name file)); discriminate E.
Qed.

Lemma archivedFile_outcome file :
  status (outcomeOf (archivedFile file)) = UNCHANGED
  /\ finalPathOf (archivedFile file) = finalPathOf file
  /\ newName (outcomeOf (archivedFile file)) = newName (outcomeOf file)
  /\ detectedType (outcomeOf (archivedFile file))
     = detectedType (outcomeOf file).
Proof.
  destruct (archivedFile_path file) as (Hp & Hn & Hd).
  assert (Hd' : decide (name (archivedFile file))
                       (relativePathOf (archivedFile file))
                       (detectMimeType (archivedFile file)) 0
                = mkDecision (newName (outcomeOf file)) (finalPathOf file)
                             UNCHANGED 0).
  { rewrite Hp, Hn, Hd. unfold outcomeOf, finalPathOf. cbn [newName].
    apply DecideFacts.decide_again. }
  splits.
  - unfold outcomeOf at 1. cbn [status]. now rewrite Hd'.
  - unfold finalPathOf at 1. now rewrite Hd'.
  - unfold outcomeOf at 1. cbn [newName]. now rewrite Hd'.
  - unfold outcomeOf. cbn [detectedType]. exact Hd.
Qed.

End RunFacts.

(** X16.  The list the view shows is the recent-history window of the
    outcome log: its last 500 rows, newest first; for a batch of at most
    500 files it is the whole log reversed. *)
Theorem logs_are_recent_window (now : Z)
        (generateAsync : list (string * File) -> option (list byte))
        (files : list File) :
  logs (startProcessing now generateAsync files)
  = firstn 500 (rev (map outcomeOf files))
  /\ List.length (logs (startProcessing now generateAsync files))
     = Nat.min 500 (List.length files)
  /\ ((List.length files <= 500)%nat ->
      logs (startProcessing now generateAsync files)
      = rev (processedFiles (startProcessing now generateAsync files))).
Proof.
  destruct (Pipeline.startProcessing_loop now generateAsync files)
    as (Ho & _ & _ & Hl & _).
  destruct (Pipeline.loop_spec files 0 (begin now files)) as (Ho' & _).
  assert (E : logs (startProcessing now generateAsync files)
              = firstn 500 (rev (map outcomeOf files))).
  { rewrite Hl, (RunFacts.loop_logs_window files 0 (begin now files) eq_refl).
    rewrite Ho'. reflexivity. }
  splits.
  - exact E.
  - rewrite E, length_firstn, length_rev, length_map. reflexivity.
  - intros Hn. rewrite E, Ho, Ho'. cbn [begin processedFiles app].
    apply firstn_all2. rewrite length_rev, length_map. exact Hn.
Qed.

Lemma logs_are_recent_window_witness :
  (List.length exampleBatch <= 500)%nat
  /\ map originalPath (logs (startProcessing 0 (fun _ => None) exampleBatch))
     = ["c.dat"; "b.jpg"; "a.png"].
Proof.
  assert (H : (List.length exampleBatch <= 500)%nat) by (simpl; lia).
  destruct (logs_are_recent_window 0 (fun _ => None) exampleBatch)
    as (_ & _ & Hrev).
  split; [exact H|]. rewrite (Hrev H). reflexivity.
Defined.

(** X17.  When at least one selected file passes the pre-filter,
    [handleFolderSelect] runs the pipeline on exactly the files whose
    name starts neither with ['.'] nor with "__MACOSX", in their
    original order, whatever state it finds; the directory a file is in
    plays no part in the filter. *)
Theorem handleFolderSelect_runs_valid_files (now : Z)
        (generateAsync : list (string * File) -> option (list byte))
        (files : list File) (app : Run) :
  validFilesOf files <> [] ->
  handleFolderSelect now generateAsync (Some files) app
  = startProcessing now generateAsync (validFilesOf files)
  /\ map blob (processedFiles
                 (handleFolderSelect now generateAsync (Some files) app))
     = validFilesOf files
  /\ total (stats (handleFolderSelect now generateAsync (Some files) app))
     = List.length (validFilesOf files)
  /\ Forall (fun o => JS.startsWith (originalName o) "." = false
                      /\ JS.startsWith (originalName o) "__MACOSX" = false)
            (processedFiles
               (handleFolderSelect now generateAsync (Some files) app))
  /\ (forall f, In f (validFilesOf files)
                <-> In f files
                    /\ JS.startsWith (name f) "." = false
                    /\ JS.startsWith (name f) "__MACOSX" = false).
Proof.
  intros Hvalid.
  assert (Hskip : forall f, shouldSkipFile (name f) = false
                            <-> JS.startsWith (name f) "." = false
                                /\ JS.startsWith (name f) "__MACOSX" = false).
  { intros f. unfold shouldSkipFile.
    destruct (JS.startsWith (name f) "."),
             (JS.startsWith (name f) "__MACOSX"); cbn; intuition discriminate. }
  assert (Hin : forall f, In f (validFilesOf files)
                          <-> In f files /\ shouldSkipFile (name f) = false).
  { intros f. unfold validFilesOf. rewrite filter_In, negb_true_iff. tauto. }
  assert (E : handleFolderSelect now generateAsync (Some files) app
              = startProcessing now generateAsync (validFilesOf files)).
  { unfold handleFolderSelect.
    destruct files as [|f0 files0]; [contradiction Hvalid; reflexivity|].
    cbn [List.length Nat.eqb]. cbv zeta.
    destruct (validFilesOf (f0 :: files0)); [contradiction|reflexivity]. }
  destruct (RunFacts.run_outcomes now generateAsync (validFilesOf files))
    as (Ho & _ & Hs).
  rewrite E, Ho, Hs. cbn [total]. splits.
  - reflexivity.
  - rewrite map_map. apply map_id.
  - reflexivity.
  - apply Forall_map, Forall_forall. intros f Hf.
    apply Hin in Hf as [_ Hf]. apply Hskip in Hf. exact Hf.
  - intros f. rewrite Hin, Hskip. tauto.
Qed.

Lemma handleFolderSelect_runs_valid_files_witness :
  let files :=
    [ mkFile ".DS_Store" "shots/.DS_Store" [x00; x00] true;
      mkFile "a.jpg" ".cache/a.jpg" [x89; x50; x4e; x47] true;
      mkFile "__MACOSX_b.png" "shots/__MACOSX_b.png" [x89; x50; x4e; x47] true;
      mkFile "c.png" "__MACOSX/c.png" [x47; x49; x46; x38] true ] in
  validFilesOf files <> []
  /\ map fst (zip (handleFolderSelect 0 (fun _ => None) (Some files) initialApp))
     = [".cache/a.png"; "__MACOSX/c.gif"].
Proof.
  intros files.
  assert (H : validFilesOf files <> []) by discriminate.
  destruct (handleFolderSelect_runs_valid_files 0 (fun _ => None) files
              initialApp H) as (E & _).
  split; [exact H|]. rewrite E. reflexivity.
Defined.

(** X18.  On every file [handleFolderSelect] lets through, a FIXED row
    has the new name the specification describes: the portion of the
    name before its last ['.'] (the whole name without ['.']), ['.'] and
    the detected format's extension. *)
Theorem handleFolderSelect_new_names (now : Z)
        (generateAsync : list (string * File) -> option (list byte))
        (files : list File) (app : Run) :
  validFilesOf files <> [] ->
  Forall (fun o => status o = FIXED ->
                   newName o
                   = (stemOf (originalName o) ++ "."
                      ++ typeString (detectedType o))%string)
         (processedFiles
            (handleFolderSelect now generateAsync (Some files) app)).
Proof.
  intros Hvalid.
  assert (E : handleFolderSelect now generateAsync (Some files) app
              = startProcessing now generateAsync (validFilesOf files)).
  { unfold handleFolderSelect.
    destruct files as [|f0 files0]; [contradiction Hvalid; reflexivity|].
    cbn [List.length Nat.eqb]. cbv zeta.
    destruct (validFilesOf (f0 :: files0)); [contradiction|reflexivity]. }
  destruct (RunFacts.run_outcomes now generateAsync (validFilesOf files))
    as (Ho & _).
  rewrite E, Ho. apply Forall_map, Forall_forall. intros f Hf.
  unfold validFilesOf in Hf. apply filter_In in Hf as [_ Hf].
  apply negb_true_iff in Hf.
  unfold outcomeOf. cbn [status newName originalName detectedType].
  destruct (DecideFacts.decide_cases (name f) (relativePathOf f)
              (detectMimeType f) 0) as [[-> _] | [-> _]];
    cbn [d_status d_newName]; [discriminate|].
  intros _. now rewrite (PathPolicy.keptStem_unskipped _ Hf).
Qed.

Lemma handleFolderSelect_new_names_witness :
  let files := [ mkFile "x.tar.jpg" "in/x.tar.jpg" [x89; x50; x4e; x47] true ] in
  validFilesOf files <> []
  /\ Forall (fun o => status o = FIXED ->
                      newName o
                      = (stemOf (originalName o) ++ "."
                         ++ typeString (detectedType o))%string)
            (processedFiles
               (handleFolderSelect 0 (fun _ => None) (Some files) initialApp))
  /\ map newName (processedFiles
                    (handleFolderSelect 0 (fun _ => None) (Some files)
                                        initialApp))
     = ["x.tar.png"].
Proof.
  intros files.
  assert (H : validFilesOf files <> []) by discriminate.
  split; [exact H|]. split; [|reflexivity].
  exact (handleFolderSelect_new_names 0 (fun _ => None) files initialApp H).
Defined.

(** X19.  When every selected file is skipped by the pre-filter, or
    nothing is selected, no run starts: state, counters, log and archive
    blob stay as they were (in particular the state does not become
    ERROR); for a non-empty selection only the error message is set. *)
Theorem handleFolderSelect_nothing_valid (now : Z)
        (generateAsync : list (string * File) -> option (list byte))
        (files : list File) (app : Run) :
  Forall (fun f => shouldSkipFile (name f) = true) files ->
  state (handleFolderSelect now generateAsync (Some files) app) = state app
  /\ stats (handleFolderSelect now generateAsync (Some files) app) = stats app
  /\ logs (handleFolderSelect now generateAsync (Some files) app) = logs app
  /\ zipBlob (handleFolderSelect now generateAsync (Some files) app)
     = zipBlob app
  /\ errorMsg (handleFolderSelect now generateAsync (Some files) app)
     = (if (List.length files =? 0)%nat then errorMsg app
        else "No valid files found in the selected folder.")
  /\ handleFolderSelect now generateAsync None app = app.
Proof.
  intros Hall. unfold handleFolderSelect.
  rewrite (RunFacts.all_skipped files Hall).
  destruct (List.length files =? 0)%nat; cbn; splits; reflexivity.
Qed.

Lemma handleFolderSelect_nothing_valid_witness :
  let files :=
    [ mkFile ".DS_Store" "shots/.DS_Store" [x00; x00] true;
      mkFile "__MACOSX" "shots/__MACOSX" [x89; x50; x4e; x47] true ] in
  Forall (fun f => shouldSkipFile (name f) = true) files
  /\ state (handleFolderSelect 0 (fun _ => Some []) (Some files) initialApp)
     = IDLE
  /\ errorMsg (handleFolderSelect 0 (fun _ => Some []) (Some files) initialApp)
     = "No valid files found in the selected folder.".
Proof.
  intros files.
  assert (H : Forall (fun f => shouldSkipFile (name f) = true) files)
    by (repeat constructor).
  destruct (handleFolderSelect_nothing_valid 0 (fun _ => Some []) files
              initialApp H) as (Hst & _ & _ & _ & Herr & _).
  split; [exact H|]. split; [exact Hst|exact Herr].
Defined.

(** X20.  A download is offered exactly when the run completed: the
    blob saved is the one the archive assembler returned for the
    entries of the run, under the name "fixed_images.zip"; when the
    assembler fails the run is in the ERROR state with its message and
    there is nothing to download; after [reset] there is nothing to
    download either. *)
Theorem download_after_success_only (now : Z)
        (generateAsync : list (string * File) -> option (list byte))
        (files : list File) :
  downloadZip (startProcessing now generateAsync files)
  = option_map (fun blob_ => (blob_, "fixed_images.zip"))
               (generateAsync (map entryOf files))
  /\ (state (startProcessing now generateAsync files) = COMPLETED
      <-> downloadZip (startProcessing now generateAsync files) <> None)
  /\ (state (startProcessing now generateAsync files) = ERROR
      <-> downloadZip (startProcessing now generateAsync files) = None)
  /\ (downloadZip (startProcessing now generateAsync files) = None
      <-> errorMsg (startProcessing now generateAsync files)
          = "An error occurred while processing files. Please try again.")
  /\ downloadZip (reset (startProcessing now generateAsync files)) = None
  /\ state (reset (startProcessing now generateAsync files)) = IDLE.
Proof.
  destruct (Pipeline.loop_spec files 0 (begin now files)) as (_ & Hz & _).
  destruct (RunFacts.loop_keeps files 0 (begin now files)) as (He & Hb).
  cbn [begin zip app errorMsg zipBlob] in Hz, He, Hb.
  unfold startProcessing, downloadZip. cbv zeta. rewrite Hz.
  destruct (generateAsync (map entryOf files)) as [blob_|];
    cbn [zipBlob state errorMsg option_map reset]; rewrite ?He, ?Hb;
    splits; try reflexivity;
    split; intros; try discriminate; try reflexivity; congruence.
Qed.

(** X21.  Running the pipeline on its own output changes nothing: on
    the files of the archive (each entry's path, its new name, the same
    bytes) every row is UNCHANGED, nothing is counted as fixed, and the
    archive paths, names and detected formats are those of the first
    run. *)
Theorem rerun_on_output_changes_nothing (now1 now2 : Z)
        (generateAsync1 generateAsync2
         : list (string * File) -> option (list byte))
        (files : list File) :
  fixed (stats (startProcessing now2 generateAsync2 (map archivedFile files)))
  = 0%nat
  /\ Forall (fun o => status o = UNCHANGED)
            (processedFiles
               (startProcessing now2 generateAsync2 (map archivedFile files)))
  /\ map fst (zip (startProcessing now2 generateAsync2
                                   (map archivedFile files)))
     = map fst (zip (startProcessing now1 generateAsync1 files))
  /\ map newName (processedFiles
                    (startProcessing now2 generateAsync2
                                     (map archivedFile files)))
     = map newName (processedFiles (startProcessing now1 generateAsync1 files))
  /\ map detectedType (processedFiles
                         (startProcessing now2 generateAsync2
                                          (map archivedFile files)))
     = map detectedType
           (processedFiles (startProcessing now1 generateAsync1 files)).
Proof.
  destruct (RunFacts.run_outcomes now1 generateAsync1 files)
    as (Ho1 & Hz1 & _).
  destruct (RunFacts.run_outcomes now2 generateAsync2 (map archivedFile files))
    as (Ho2 & Hz2 & Hs2).
  rewrite Ho1, Hz1, Ho2, Hz2, Hs2. cbn [fixed]. rewrite !map_map.
  assert (Hall : Forall (fun o => status o = UNCHANGED)
                        (map (fun f => outcomeOf (archivedFile f)) files)).
  { apply Forall_map, Forall_forall. intros f _.
    apply RunFacts.archivedFile_outcome. }
  splits.
  - unfold countFixed. clear -Hall.
    induction Hall as [|o l Ho _ IH]; [reflexivity|].
    cbn [filter]. rewrite Ho. exact IH.
  - exact Hall.
  - apply map_ext. intros f. unfold entryOf. cbn [fst].
    apply RunFacts.archivedFile_outcome.
  - apply map_ext. intros f. apply RunFacts.archivedFile_outcome.
  - apply map_ext. intros f. apply RunFacts.archivedFile_outcome.
Qed.
